(** * The user-creation form: schema validation and submit life cycle

    A shallow embedding of the form component of this repository.  Two
    revisions of the component are present in the sources: the basic form
    ([src/src/App.tsx]: name, email, password, techs) and the form with the
    avatar upload (the revision that adds [MAX_FILE_SIZE],
    [ACCEPTED_IMAGE_TYPES], the [avatar] field, the awaited storage call and
    [disabled={isSubmitting}] on the submit button).  The field schemas the
    two revisions share are written once; each revision is a module of its
    own ([App] and [AvatarApp]).

    The schema is a composition of zod combinators.  Their run-time
    behaviour (zod 3: parse statuses valid/dirty/aborted, issues pushed on a
    shared context, refinements that run on dirty values, transforms that
    run only on valid ones, exceptions of user callbacks passing through) is
    written out in the section on the parse monad, so that the field schemas
    below read like the source. *)

From Stdlib Require Import ZArith QArith String Ascii List Bool Lia.
From stdpp Require Import base option list strings gmap pretty.

Local Open Scope string_scope.
Local Open Scope list_scope.

(** ** JavaScript values *)

(** An exception thrown by the program.  The only ones the component can
    raise are the [TypeError]s of a property read on [null]/[undefined]. *)
Inductive JsError : Type :=
  | TypeError (msg : string).

(** A computation that either throws or returns. *)
Definition Js (A : Type) : Type := JsError + A.

(** The host functions whose tables live in the JavaScript engine and in the
    zod package rather than in this repository: the Unicode case mappings
    and the regular expression behind [z.string().email()]. *)
Class Host : Type := {
  toLowerCase : string -> string;
  toLocaleUpperCase : string -> string;
  emailRegex_test : string -> bool
}.

(** *** Strings

    A string is a sequence of code units, one [ascii] each, so the model
    covers the strings whose code units are below 256; [String.length] is
    the JavaScript [.length].  The messages of the schema are kept as the
    bytes of the source text; they are only compared, never measured. *)

(** White space removed by [String.prototype.trim] (the code units of it
    below 256: TAB, LF, VT, FF, CR, SPACE, NBSP). *)
Definition isWhiteSpace (c : ascii) : bool :=
  let n := nat_of_ascii c in
  ((9 <=? n)%nat && (n <=? 13)%nat) || (n =? 32)%nat || (n =? 160)%nat.

Fixpoint trimStart (s : string) : string :=
  match s with
  | String c r => if isWhiteSpace c then trimStart r else s
  | EmptyString => EmptyString
  end.

(** [trimEnd] keeps a character when it is not white space or when something
    is kept after it. *)
Fixpoint trimEnd (s : string) : string :=
  match s with
  | String c r =>
      match trimEnd r with
      | EmptyString => if isWhiteSpace c then EmptyString else String c EmptyString
      | r' => String c r'
      end
  | EmptyString => EmptyString
  end.

Definition trim (s : string) : string := trimEnd (trimStart s).

(** [s.split(sep)] for a one-character separator: never the empty array;
    two adjacent separators delimit an empty string. *)
Fixpoint split (sep : ascii) (s : string) : list string :=
  match s with
  | EmptyString => [EmptyString]
  | String c r =>
      if Ascii.eqb c sep then EmptyString :: split sep r
      else match split sep r with
           | w :: ws => String c w :: ws
           | [] => [String c EmptyString]
           end
  end.

(** [words.join(sep)]. *)
Fixpoint join (sep : string) (ws : list string) : string :=
  match ws with
  | [] => EmptyString
  | [w] => w
  | w :: ws' => w ++ sep ++ join sep ws'
  end.

(** [s.endsWith(t)]. *)
Definition endsWith (s t : string) : bool :=
  (String.length t <=? String.length s)%nat
  && String.eqb (substring (String.length s - String.length t) (String.length t) s) t.

(** [list.includes(x)] on an array of strings. *)
Definition includes (l : list string) (x : string) : bool :=
  existsb (String.eqb x) l.

(** [word[0]]: [undefined] on the empty string. *)
Definition charAt0 (word : string) : option string :=
  match word with
  | String c _ => Some (String c EmptyString)
  | EmptyString => None
  end.

(** [word.substring(1)]. *)
Definition substring1 (word : string) : string :=
  match word with
  | String _ r => r
  | EmptyString => EmptyString
  end.

(** *** Numbers

    A JavaScript number is [NaN], an infinity or a finite value; finite
    values are kept as exact rationals (every binary64 value is one).  The
    comparisons are the IEEE ones: every comparison with [NaN] is false. *)
Inductive number : Type :=
  | NaN
  | NegInfinity
  | Finite (q : Q)
  | PosInfinity.

Definition num_ltb (a b : number) : bool :=
  match a, b with
  | NaN, _ | _, NaN => false
  | NegInfinity, NegInfinity => false
  | NegInfinity, _ => true
  | _, NegInfinity => false
  | PosInfinity, _ => false
  | Finite _, PosInfinity => true
  | Finite x, Finite y => negb (Qle_bool y x)
  end.

Definition num_leb (a b : number) : bool :=
  match a, b with
  | NaN, _ | _, NaN => false
  | NegInfinity, _ => true
  | _, PosInfinity => true
  | PosInfinity, _ => false
  | _, NegInfinity => false
  | Finite x, Finite y => Qle_bool x y
  end.

Definition num_gtb (a b : number) : bool := num_ltb b a.

Definition num_of_Z (z : Z) : number := Finite (inject_Z z).

(** [Number.isInteger]. *)
Definition isInteger (a : number) : bool :=
  match a with
  | Finite q => Z.eqb (Z.modulo (Qnum q) (Z.pos (Qden q))) 0
  | _ => false
  end.

(** [Number(s)] on a string: the StringToNumber grammar of ECMAScript
    (surrounding white space, the empty string, signed decimal literals with
    fraction and exponent, [Infinity], and the unsigned [0x]/[0o]/[0b]
    integer literals).  The mathematical value of the literal is rounded
    to the nearest binary64 value ([roundToBinary64] below). *)
Definition digitValue (c : ascii) : option N :=
  let n := N_of_ascii c in
  if (48 <=? n)%N && (n <=? 57)%N then Some (n - 48)%N
  else if (97 <=? n)%N && (n <=? 102)%N then Some (n - 87)%N
  else if (65 <=? n)%N && (n <=? 70)%N then Some (n - 55)%N
  else None.

Fixpoint digitsValue (base acc : N) (s : string) : option N :=
  match s with
  | EmptyString => Some acc
  | String c r =>
      match digitValue c with
      | Some d => if (d <? base)%N then digitsValue base (acc * base + d)%N r else None
      | None => None
      end
  end.

(** One or more digits of the base. *)
Definition parseDigits (base : N) (s : string) : option N :=
  match s with
  | EmptyString => None
  | _ => digitsValue base 0%N s
  end.

(** Cut a string at the first character satisfying [p]. *)
Fixpoint breakAt (p : ascii -> bool) (s : string) : string * option string :=
  match s with
  | EmptyString => (EmptyString, None)
  | String c r =>
      if p c then (EmptyString, Some r)
      else let '(a, b) := breakAt p r in (String c a, b)
  end.

Definition signedInteger (s : string) : option Z :=
  match s with
  | String "+" r => Z.of_N <$> parseDigits 10 r
  | String "-" r => (fun n => (- Z.of_N n)%Z) <$> parseDigits 10 r
  | _ => Z.of_N <$> parseDigits 10 s
  end.

Definition isExponentIndicator (c : ascii) : bool :=
  Ascii.eqb c "e" || Ascii.eqb c "E".

(** The value of [ip.fp] with [fp] possibly absent or empty. *)
Definition mantissaValue (s : string) : option Q :=
  let '(ip, fp) := breakAt (Ascii.eqb ".") s in
  match fp with
  | None => (fun n => inject_Z (Z.of_N n)) <$> parseDigits 10 ip
  | Some f =>
      let scale := (10 ^ Z.of_nat (String.length f))%Z in
      match ip, f with
      | EmptyString, EmptyString => None
      | _, _ =>
          match digitsValue 10 0%N ip, digitsValue 10 0%N f with
          | Some i, Some d =>
              Some (Qmake (Z.of_N i * scale + Z.of_N d) (Z.to_pos scale))
          | _, _ => None
          end
      end
  end.

(** [n/d] rounded to an integer, ties to even ([0 <= n], [0 < d]). *)
Definition roundTiesToEven (n d : Z) : Z :=
  let q := (n / d)%Z in
  match (2 * (n mod d) ?= d)%Z with
  | Lt => q
  | Gt => (q + 1)%Z
  | Eq => if Z.even q then q else (q + 1)%Z
  end.

(** The Number value for a rational: the binary64 value nearest to it, ties
    to even (53 significant bits, least exponent -1074, an infinity from
    2^1024 on).  With [2^e <= |q| < 2^(e+1)] the result is a multiple [m] of
    the unit [2^u], [u = max (e - 52) (-1074)].  The sign of a zero is not
    kept: no comparison of the schema tells -0 from 0. *)
Definition roundToBinary64 (q : Q) : number :=
  let n := Z.abs (Qnum q) in
  let d := Z.pos (Qden q) in
  if (n =? 0)%Z then Finite 0
  else
    let e0 := (Z.log2 n - Z.log2 d)%Z in
    let e :=
      if (if (0 <=? e0)%Z then (2 ^ e0 * d <=? n)%Z else (d <=? n * 2 ^ (- e0))%Z)
      then e0 else (e0 - 1)%Z in
    let u := Z.max (e - 52) (-1074) in
    let m :=
      if (0 <=? u)%Z then roundTiesToEven n (d * 2 ^ u)
      else roundTiesToEven (n * 2 ^ (- u)) d in
    let v : Q :=
      if (0 <=? u)%Z then inject_Z (m * 2 ^ u)
      else Qmake m (Z.to_pos (2 ^ (- u))) in
    if (0 <=? u)%Z && (2 ^ 1024 <=? m * 2 ^ u)%Z
    then if (Qnum q <? 0)%Z then NegInfinity else PosInfinity
    else Finite (Qred (if (Qnum q <? 0)%Z then - v else v)).

Definition unsignedDecimal (s : string) : option number :=
  if String.eqb s "Infinity" then Some PosInfinity
  else
    let '(mant, ex) := breakAt isExponentIndicator s in
    match mantissaValue mant, match ex with
                              | None => Some 0%Z
                              | Some e => signedInteger e
                              end with
    | Some m, Some e => Some (roundToBinary64 (m * Qpower (10 # 1) e))
    | _, _ => None
    end.

Definition negate (a : number) : number :=
  match a with
  | NaN => NaN
  | NegInfinity => PosInfinity
  | PosInfinity => NegInfinity
  | Finite q => Finite (Qred (- q))
  end.

Definition nonDecimalInteger (s : string) : option number :=
  match s with
  | String "0" (String c r) =>
      let base : option N :=
        if Ascii.eqb c "x" || Ascii.eqb c "X" then Some 16%N
        else if Ascii.eqb c "o" || Ascii.eqb c "O" then Some 8%N
        else if Ascii.eqb c "b" || Ascii.eqb c "B" then Some 2%N
        else None in
      match base with
      | Some b => (fun n => roundToBinary64 (inject_Z (Z.of_N n))) <$> parseDigits b r
      | None => None
      end
  | _ => None
  end.

Definition StringToNumber (s : string) : number :=
  let t := trim s in
  match t with
  | EmptyString => num_of_Z 0
  | String "+" r => default NaN (unsignedDecimal r)
  | String "-" r => default NaN (negate <$> unsignedDecimal r)
  | _ =>
      match nonDecimalInteger t with
      | Some n => n
      | None => default NaN (unsignedDecimal t)
      end
  end.

(** What a form control hands to the validator for a numeric field: the
    text of the [<input>], or the number given as the row's default value
    when the control was never edited. *)
Inductive RawNumber : Type :=
  | RawStr (s : string)
  | RawNum (n : number).

(** [Number(x)], the coercion of [z.coerce.number()]. *)
Definition Number (x : RawNumber) : number :=
  match x with
  | RawStr s => StringToNumber s
  | RawNum n => n
  end.

(** ** The parse monad of zod *)

Inductive ZodIssueCode : Type :=
  | invalid_type
  | too_small
  | too_big
  | invalid_string
  | custom.

Inductive PathSeg : Type :=
  | Key (k : string)
  | Index (i : nat).

Record ZodIssue : Type := mkIssue {
  code : ZodIssueCode;
  path : list PathSeg;
  message : string
}.

(** A parse step reads and extends [ctx.common.issues] and may throw. *)
Definition Parse (A : Type) : Type := list ZodIssue -> Js (A * list ZodIssue).

Definition ret {A} (a : A) : Parse A := fun issues => inr (a, issues).

Definition bind {A B} (m : Parse A) (k : A -> Parse B) : Parse B :=
  fun issues =>
    match m issues with
    | inl e => inl e
    | inr (a, issues') => k a issues'
    end.

Notation "x <- m ;; k" := (bind m (fun x => k))
  (at level 100, m at next level, right associativity).
Notation "m ;;; k" := (bind m (fun _ => k))
  (at level 100, right associativity).

(** Method chaining: [s |> f] is [s.f]. *)
Notation "s |> f" := (f s) (at level 45, left associativity, only parsing).

(** [addIssueToContext]: push at the end of the issue array. *)
Definition addIssue (i : ZodIssue) : Parse unit :=
  fun issues => inr (tt, issues ++ [i]).

(** Run a user callback; what it throws leaves the parser. *)
Definition call {A} (r : Js A) : Parse A :=
  fun issues =>
    match r with
    | inl e => inl e
    | inr a => inr (a, issues)
    end.

(** The return value of [_parse]: [{status: "valid", value}],
    [{status: "dirty", value}] or [INVALID] (status "aborted").  A dirty
    value may still have the type the schema had before a transform, hence
    the two value types. *)
Inductive ParseReturn (D O : Type) : Type :=
  | OK (value : O)
  | DIRTY (value : D)
  | INVALID.
Arguments OK {D O} value.
Arguments DIRTY {D O} value.
Arguments INVALID {D O}.

Definition ZodType (I D O : Type) : Type :=
  list PathSeg -> I -> Parse (ParseReturn D O).

Definition isValid {D O} (r : ParseReturn D O) : bool :=
  match r with OK _ => true | _ => false end.
Definition isAborted {D O} (r : ParseReturn D O) : bool :=
  match r with INVALID => true | _ => false end.

(** *** [z.string()] and its checks *)

Inductive ZodStringCheck : Type :=
  | min_check (value : nat) (message : string)
  | email_check (message : string)
  | toLowerCase_check.

(** [.nonempty(message)] is [.min(1, message)]. *)
Definition nonempty (message : string) : ZodStringCheck := min_check 1 message.

Section ZodString.
Context `{Host}.

(** The loop over [this._def.checks] in [ZodString._parse]: every check
    runs; a failed one adds its issue and marks the status dirty;
    [toLowerCase] rewrites the data the later checks see. *)
Fixpoint stringChecks (path : list PathSeg) (checks : list ZodStringCheck)
    (data : string) (dirty : bool) : Parse (ParseReturn string string) :=
  match checks with
  | [] => ret (if dirty then DIRTY data else OK data)
  | min_check n msg :: cs =>
      if (String.length data <? n)%nat
      then addIssue (mkIssue too_small path msg) ;;; stringChecks path cs data true
      else stringChecks path cs data dirty
  | email_check msg :: cs =>
      if emailRegex_test data
      then stringChecks path cs data dirty
      else addIssue (mkIssue invalid_string path msg) ;;; stringChecks path cs data true
  | toLowerCase_check :: cs =>
      stringChecks path cs (toLowerCase data) dirty
  end.

Definition z_string (checks : list ZodStringCheck) : ZodType string string string :=
  fun path data => stringChecks path checks data false.
End ZodString.

(** *** [z.coerce.number()] and its checks *)

Inductive ZodNumberCheck : Type :=
  | num_min (value : Z)
  | num_max (value : Z).

(** The messages of zod's default error map. *)
Definition msg_too_small (value : Z) : string :=
  "Number must be greater than or equal to " ++ pretty value.
Definition msg_too_big (value : Z) : string :=
  "Number must be less than or equal to " ++ pretty value.
Definition msg_received_nan : string := "Expected number, received nan".

Fixpoint numberChecks (path : list PathSeg) (checks : list ZodNumberCheck)
    (data : number) (dirty : bool) : Parse (ParseReturn number number) :=
  match checks with
  | [] => ret (if dirty then DIRTY data else OK data)
  | num_min v :: cs =>
      if num_ltb data (num_of_Z v)
      then addIssue (mkIssue too_small path (msg_too_small v)) ;;; numberChecks path cs data true
      else numberChecks path cs data dirty
  | num_max v :: cs =>
      if num_gtb data (num_of_Z v)
      then addIssue (mkIssue too_big path (msg_too_big v)) ;;; numberChecks path cs data true
      else numberChecks path cs data dirty
  end.

(** [ZodNumber._parse] with [coerce]: the input is replaced by
    [Number(input)]; [NaN] is not of the parsed type [number] and aborts
    with [invalid_type] (received [nan], which the error map does not
    render as "Required": that is kept for [undefined]). *)
Definition z_coerce_number (checks : list ZodNumberCheck) : ZodType RawNumber number number :=
  fun path data =>
    match Number data with
    | NaN => addIssue (mkIssue invalid_type path msg_received_nan) ;;; ret INVALID
    | n => numberChecks path checks n false
    end.

(** *** [ZodEffects]: [.refine] and [.transform] *)

(** [schema.refine(check, message)].  The inner schema runs first; an
    aborted result stops here, a valid or a dirty one is handed to the
    check.  A false check adds a [custom] issue that is not fatal. *)
Definition refine {I O} (check : O -> Js bool) (message : string)
    (schema : ZodType I O O) : ZodType I O O :=
  fun path data =>
    inner <- schema path data ;;
    match inner with
    | INVALID => ret INVALID
    | OK v =>
        ok <- call (check v) ;;
        if ok : bool then ret (OK v)
        else addIssue (mkIssue custom path message) ;;; ret (DIRTY v)
    | DIRTY v =>
        ok <- call (check v) ;;
        if ok : bool then ret (DIRTY v)
        else addIssue (mkIssue custom path message) ;;; ret (DIRTY v)
    end.

(** [schema.transform(f)]: [if (!isValid(base)) return base], otherwise
    the value is replaced by [f(value)]. *)
Definition transform {I D O O'} (f : O -> Js O') (schema : ZodType I D O)
    : ZodType I D O' :=
  fun path data =>
    base <- schema path data ;;
    match base with
    | OK v => v' <- call (f v) ;; ret (OK v')
    | DIRTY d => ret (DIRTY d)
    | INVALID => ret INVALID
    end.

(** *** [z.array(element).min(n, message)] *)

(** [[...ctx.data].map((item, i) => def.type._parseSync(...))]: every item
    is parsed, at the path extended with its index. *)
Fixpoint parseItems {I O} (element : ZodType I O O) (path : list PathSeg)
    (i : nat) (items : list I) : Parse (list (ParseReturn O O)) :=
  match items with
  | [] => ret []
  | x :: xs =>
      r <- element (path ++ [Index i]) x ;;
      rs <- parseItems element path (S i) xs ;;
      ret (r :: rs)
  end.

(** [ParseStatus.mergeArray]. *)
Fixpoint mergeArray {O} (dirty : bool) (results : list (ParseReturn O O))
    (acc : list O) : ParseReturn (list O) (list O) :=
  match results with
  | [] => if dirty then DIRTY acc else OK acc
  | INVALID :: _ => INVALID
  | DIRTY v :: rs => mergeArray true rs (acc ++ [v])
  | OK v :: rs => mergeArray dirty rs (acc ++ [v])
  end.

Definition z_array_min {I O} (element : ZodType I O O) (minLength : nat)
    (message : string) : ZodType (list I) (list O) (list O) :=
  fun path data =>
    dirty <- (if (List.length data <? minLength)%nat
              then addIssue (mkIssue too_small path message) ;;; ret true
              else ret false) ;;
    results <- parseItems element path 0 data ;;
    ret (mergeArray dirty results []).

(** *** Results *)

(** [safeParse]: success only for a valid result; otherwise the issues. *)
Inductive SafeParseReturn (O : Type) : Type :=
  | Success (data : O)
  | Failure (issues : list ZodIssue).
Arguments Success {O} data.
Arguments Failure {O} issues.

Definition safeParse {I D O} (schema : ZodType I D O) (data : I) : Js (SafeParseReturn O) :=
  match schema [] data [] with
  | inl e => inl e
  | inr (OK v, _) => inr (Success v)
  | inr (_, issues) => inr (Failure issues)
  end.

(** *** [zodResolver]

    The resolver turns the issues into the [errors] object of the form: one
    entry per dotted path, the first issue of a path winning
    ([if (!errors[_path]) errors[_path] = {message, type}]).  An exception
    that is not a [ZodError] is thrown again.

    [errors] below is this flat map, keyed by the dotted path.  The
    resolver then nests it, entry after entry in insertion order, into the
    object the component reads: an entry at a one-segment path ([avatar],
    [name], [email], [password], [techs]) is found there under the same
    key, but an entry at [techs] written after entries at [techs.i.title]
    or [techs.i.knowledge] replaces them.  So the flat map says which
    messages the validator produced at which path; of what the page shows
    it tells the messages of the one-segment paths only. *)
Record FieldError : Type := mkFieldError {
  fe_message : string;
  fe_type : ZodIssueCode
}.

Definition segString (s : PathSeg) : string :=
  match s with
  | Key k => k
  | Index i => pretty i
  end.

Definition pathString (p : list PathSeg) : string := join "." (segString <$> p).

Fixpoint parseErrorSchema (issues : list ZodIssue) (errors : gmap string FieldError)
    : gmap string FieldError :=
  match issues with
  | [] => errors
  | i :: rest =>
      let p := pathString (path i) in
      match errors !! p with
      | Some _ => parseErrorSchema rest errors
      | None => parseErrorSchema rest (<[p := mkFieldError (message i) (code i)]> errors)
      end
  end.

Record ResolverResult (O : Type) : Type := mkResolverResult {
  values : option O;
  errors : gmap string FieldError
}.
Arguments mkResolverResult {O} values errors.
Arguments values {O} r.
Arguments errors {O} r.

Definition zodResolver {I D O} (schema : ZodType I D O) (data : I) : Js (ResolverResult O) :=
  match safeParse schema data with
  | inl e => inl e
  | inr (Success v) => inr (mkResolverResult (Some v) ∅)
  | inr (Failure issues) => inr (mkResolverResult None (parseErrorSchema issues ∅))
  end.

(** A result reports a message at a path when it is a failure with an
    issue of that path and message. *)
Definition reports {O} (r : Js (SafeParseReturn O)) (p : list PathSeg) (msg : string) : Prop :=
  exists issues, r = inr (Failure issues) /\ exists c, mkIssue c p msg ∈ issues.

(** ** The field schemas shared by the two revisions *)

Module File.
(** The part of a DOM [File] the component reads. *)
Record t : Type := mk { name : string; size : N; type : string }.
End File.

(** A [FileList]; [files.item(0)] is [null] when it is empty. *)
Abbreviation FileList := (list File.t).
Definition item (i : nat) (files : FileList) : option File.t := files !! i.

(** A property read on a value that may be [null] or [undefined]. *)
Definition prop {A B} (receiver : string) (property : string) (o : option A) (get : A -> B) : Js B :=
  match o with
  | Some a => inr (get a)
  | None =>
      inl (TypeError ("Cannot read properties of " ++ receiver
                      ++ " (reading '" ++ property ++ "')")%string)
  end.

(** [Array.prototype.map] with a callback that may throw. *)
Fixpoint mapJs {A B} (f : A -> Js B) (l : list A) : Js (list B) :=
  match l with
  | [] => inr []
  | x :: xs =>
      match f x with
      | inl e => inl e
      | inr y =>
          match mapJs f xs with
          | inl e => inl e
          | inr ys => inr (y :: ys)
          end
      end
  end.

Record RawTech : Type := mkRawTech { raw_title : string; raw_knowledge : RawNumber }.
Record Tech : Type := mkTech { title : string; knowledge : number }.

Section Fields.
Context `{Host}.

(** [word[0].toLocaleUpperCase().concat(word.substring(1))] *)
Definition capitalize (word : string) : Js string :=
  match prop "undefined" "toLocaleUpperCase" (charAt0 word) toLocaleUpperCase with
  | inl e => inl e
  | inr c => inr (c ++ substring1 word)%string
  end.

Definition name_transform (name : string) : Js string :=
  match mapJs capitalize (split " " (trim name)) with
  | inl e => inl e
  | inr words => inr (join " " words)
  end.

Definition name_schema : ZodType string string string :=
  z_string [nonempty "O nome é obrigatório"]
  |> transform name_transform.

Definition email_schema : ZodType string string string :=
  z_string [nonempty "O email é obrigatório";
            email_check "Formato de email inválido";
            toLowerCase_check]
  |> refine (fun email => inr (endsWith email "@hotmail.com"))
       "O email precisa ser do hotmail".

Definition password_schema : ZodType string string string :=
  z_string [min_check 6 "A senha precisa de no mínimo 6 caracteres"].

Definition title_schema : ZodType string string string :=
  z_string [nonempty "O título é obrigatório"].

Definition knowledge_schema : ZodType RawNumber number number :=
  z_coerce_number [num_min 1; num_max 100].

(** [ParseStatus.mergeObjectSync] for the two keys of a tech entry. *)
Definition tech_schema : ZodType RawTech Tech Tech :=
  fun path data =>
    t <- title_schema (path ++ [Key "title"]) (raw_title data) ;;
    k <- knowledge_schema (path ++ [Key "knowledge"]) (raw_knowledge data) ;;
    ret (match t, k with
         | INVALID, _ | _, INVALID => INVALID
         | OK t', OK k' => OK (mkTech t' k')
         | OK t', DIRTY k' | DIRTY t', OK k' | DIRTY t', DIRTY k' => DIRTY (mkTech t' k')
         end).

Definition techs_schema : ZodType (list RawTech) (list Tech) (list Tech) :=
  z_array_min tech_schema 2 "Insira pelo menos 2 tecnologias"
  |> refine (fun techs => inr (existsb (fun tech => num_gtb (knowledge tech) (num_of_Z 50)) techs))
       "Você está aprendendo".
End Fields.

(** ** The dynamic field list ([useFieldArray])

    [append] adds a row at the end, [remove] drops the row at an index (and
    nothing for an index past the end).  Neither looks at the length of the
    list. *)
Definition append {A} (fields : list A) (value : A) : list A := fields ++ [value].
Definition remove {A} (fields : list A) (index : nat) : list A := delete index fields.

(** The row [addNewTech] appends. *)
Definition newTech : RawTech := mkRawTech "" (RawNum (num_of_Z 0)).

(** ** The basic form ([src/src/App.tsx]) *)
Module App.

(** The values of the registered fields at submit time. *)
Record FieldValues : Type := mkFieldValues {
  v_name : string;
  v_email : string;
  v_password : string;
  v_techs : list RawTech
}.

(** [z.infer<typeof createUserFormSchema>] *)
Record CreateUserFormData : Type := mkData {
  name : string;
  email : string;
  password : string;
  techs : list Tech
}.

Section Schema.
Context `{Host}.

(** [z.object({...})]: every key is parsed, in the order of the shape,
    before the statuses are merged. *)
Definition createUserFormSchema : ZodType FieldValues unit CreateUserFormData :=
  fun path data =>
    n <- name_schema (path ++ [Key "name"]) (v_name data) ;;
    e <- email_schema (path ++ [Key "email"]) (v_email data) ;;
    p <- password_schema (path ++ [Key "password"]) (v_password data) ;;
    t <- techs_schema (path ++ [Key "techs"]) (v_techs data) ;;
    ret (match n, e, p, t with
         | OK n', OK e', OK p', OK t' => OK (mkData n' e' p' t')
         | _, _, _, _ =>
             if isAborted n || isAborted e || isAborted p || isAborted t
             then INVALID else DIRTY tt
         end).
(** [createUser]: [setOutput(JSON.stringify(data, null, 2))].  The text
    block is kept as the object it serializes. *)
Definition createUser (data : CreateUserFormData) : option CreateUserFormData :=
  Some data.

(** [handleSubmit(createUser)]: the resolver runs on the field values; on
    success [createUser] replaces the output, on failure the output stays. *)
Definition handleSubmit (v : FieldValues) (output : option CreateUserFormData)
    : Js (option CreateUserFormData) :=
  match zodResolver createUserFormSchema v with
  | inl e => inl e
  | inr r =>
      inr (match values r with
           | Some data => createUser data
           | None => output
           end)
  end.
End Schema.
End App.

(** ** The form with the avatar upload *)
Module AvatarApp.

Definition MAX_FILE_SIZE : N := 5 * 1024 * 1024.
Definition ACCEPTED_IMAGE_TYPES : list string :=
  ["image/jpeg"; "image/jpg"; "image/png"; "image/webp"].

(** The file input holds a [FileList]; [None] stands for any value that
    is not an instance of it. *)
Record FieldValues : Type := mkFieldValues {
  v_avatar : option FileList;
  v_name : string;
  v_email : string;
  v_password : string;
  v_techs : list RawTech
}.

(** [z.infer<typeof createUserFormSchema>].  The transform of [avatar]
    returns [files.item(0)!], a [File] for the type checker and whatever
    [item(0)] returns at run time. *)
Record CreateUserFormData : Type := mkData {
  avatar : option File.t;
  name : string;
  email : string;
  password : string;
  techs : list Tech
}.

(** [z.instanceof(FileList)]: a fatal [custom] issue otherwise. *)
Definition z_instanceof_FileList : ZodType (option FileList) FileList FileList :=
  fun path data =>
    match data with
    | Some files => ret (OK files)
    | None => addIssue (mkIssue custom path "Input not instance of FileList") ;;; ret INVALID
    end.

Definition avatar_schema : ZodType (option FileList) FileList (option File.t) :=
  z_instanceof_FileList
  |> refine (fun files => inr (bool_decide (is_Some (item 0 files))))
       "A imagem de perfil é obrigatória"
  |> refine (fun files =>
               match prop "null" "size" (item 0 files) File.size with
               | inl e => inl e
               | inr size => inr (size <=? MAX_FILE_SIZE)%N
               end)
       "Tamanho máximo de 5MB"
  |> refine (fun files =>
               match prop "null" "type" (item 0 files) File.type with
               | inl e => inl e
               | inr type => inr (includes ACCEPTED_IMAGE_TYPES type)
               end)
       "Formato de imagem inválido"
  |> transform (fun files => inr (item 0 files)).

Section Schema.
Context `{Host}.

Definition createUserFormSchema : ZodType FieldValues unit CreateUserFormData :=
  fun path data =>
    a <- avatar_schema (path ++ [Key "avatar"]) (v_avatar data) ;;
    n <- name_schema (path ++ [Key "name"]) (v_name data) ;;
    e <- email_schema (path ++ [Key "email"]) (v_email data) ;;
    p <- password_schema (path ++ [Key "password"]) (v_password data) ;;
    t <- techs_schema (path ++ [Key "techs"]) (v_techs data) ;;
    ret (match a, n, e, p, t with
         | OK a', OK n', OK e', OK p', OK t' => OK (mkData a' n' e' p' t')
         | _, _, _, _, _ =>
             if isAborted a || isAborted n || isAborted e || isAborted p || isAborted t
             then INVALID else DIRTY tt
         end).

(** *** The submit life cycle

    [isSubmitting] is the flag of react-hook-form's form state: set
    when [handleSubmit] starts and cleared when it reaches its end.
    There is no handler around the resolver or the callback: an
    exception of either one leaves [handleSubmit] before the flag is
    cleared, and nothing clears it afterwards.  The submit button carries
    [disabled={isSubmitting}].  [uploading] is
    [createUser] suspended at [await ... .upload(data.avatar.name,
    data.avatar)]; [stored] lists the calls made to the storage
    bucket.  The [errors] object shown next to the fields is
    [errors] of the last resolver run and is not part of the state. *)
Record FormState : Type := mkState {
  fieldValues : FieldValues;
  isSubmitting : bool;
  uploading : option CreateUserFormData;
  stored : list (string * File.t);
  output : option CreateUserFormData
}.

Definition initialValues : FieldValues := mkFieldValues (Some []) "" "" "" [].
Definition initialState : FormState := mkState initialValues false None [] None.

Inductive Event : Type :=
  | Change (newValues : FieldValues)
  | AddNewTech
  | Submit
  | UploadSettled (rejected : bool).

Definition setValues (s : FormState) (v : FieldValues) : FormState :=
  mkState v (isSubmitting s) (uploading s) (stored s) (output s).

Definition addNewTech (s : FormState) : FormState :=
  let v := fieldValues s in
  setValues s (mkFieldValues (v_avatar v) (v_name v) (v_email v) (v_password v)
                 (append (v_techs v) newTech)).

(** [createUser] up to its [await]: after [console.log(data.avatar)], the
    call [upload(data.avatar.name, data.avatar)] it makes to the bucket. *)
Definition createUser (data : CreateUserFormData) : Js (string * File.t) :=
  prop "null" "name" (avatar data) (fun f => (File.name f, f)).

(** [createUser] after the [await]: [setOutput(JSON.stringify(data, null, 2))].
    The text block is kept as the object it serializes. *)
Definition createUser_resumed (data : CreateUserFormData) : option CreateUserFormData :=
  Some data.

(** The part of [handleSubmit(createUser)] that runs in the turn of the
    submit event.  The flag is set first.  Then the resolver runs: field
    errors end the submit and the flag is cleared; a throw (of the
    resolver, or of [data.avatar.name] in [createUser]) leaves with the
    flag still set; otherwise [createUser] runs up to its [await] and the
    submit stays open. *)
Definition handleSubmit (s : FormState) : FormState :=
  match zodResolver createUserFormSchema (fieldValues s) with
  | inl _ => mkState (fieldValues s) true None (stored s) (output s)
  | inr r =>
      match values r with
      | None => mkState (fieldValues s) false None (stored s) (output s)
      | Some data =>
          match createUser data with
          | inl _ => mkState (fieldValues s) true None (stored s) (output s)
          | inr call =>
              mkState (fieldValues s) true (Some data) (stored s ++ [call]) (output s)
          end
      end
  end.

(** The rest of the submit, when the storage promise settles.  If it
    resolved, [createUser] calls [setOutput] and [handleSubmit] clears the
    flag.  If it rejected, the exception leaves [createUser] and
    [handleSubmit]: no output, and the flag stays as it is. *)
Definition resume (s : FormState) (rejected : bool) : FormState :=
  match uploading s with
  | None => s
  | Some data =>
      if rejected
      then mkState (fieldValues s) (isSubmitting s) None (stored s) (output s)
      else mkState (fieldValues s) false None (stored s) (createUser_resumed data)
  end.

(** One event of the page.  A disabled button does not submit. *)
Definition step (s : FormState) (e : Event) : FormState :=
  match e with
  | Change v => setValues s v
  | AddNewTech => addNewTech s
  | Submit => if isSubmitting s then s else handleSubmit s
  | UploadSettled rejected => resume s rejected
  end.

Definition run (s : FormState) (events : list Event) : FormState :=
  fold_left step events s.
End Schema.
End AvatarApp.

(** ** A host for ASCII text

    The case mappings restricted to the letters A-Z and a-z (every other
    code unit is left as it is), and the e-mail pattern of zod 3.22.0 to
    3.22.2,
    [/^([A-Z0-9_+-]+\.?)*[A-Z0-9_+-]@([A-Z0-9][A-Z0-9\-]*\.)+[A-Z]{2,}$/i];
    other releases of zod carry other patterns.  The general theorems hold
    for every host; this one only runs the validator on concrete inputs. *)
Fixpoint mapString (f : ascii -> ascii) (s : string) : string :=
  match s with
  | EmptyString => EmptyString
  | String c r => String (f c) (mapString f r)
  end.

Definition isUpperLetter (c : ascii) : bool :=
  let n := nat_of_ascii c in (65 <=? n)%nat && (n <=? 90)%nat.
Definition isLowerLetter (c : ascii) : bool :=
  let n := nat_of_ascii c in (97 <=? n)%nat && (n <=? 122)%nat.
Definition isDigit (c : ascii) : bool :=
  let n := nat_of_ascii c in (48 <=? n)%nat && (n <=? 57)%nat.
Definition isLetter (c : ascii) : bool := isUpperLetter c || isLowerLetter c.
Definition isAlnum (c : ascii) : bool := isLetter c || isDigit c.

Definition asciiLower (c : ascii) : ascii :=
  if isUpperLetter c then ascii_of_nat (nat_of_ascii c + 32) else c.
Definition asciiUpper (c : ascii) : ascii :=
  if isLowerLetter c then ascii_of_nat (nat_of_ascii c - 32) else c.

(** [[A-Z0-9_+-]] under the [i] flag. *)
Definition isLocalAtom (c : ascii) : bool :=
  isAlnum c || Ascii.eqb c "_" || Ascii.eqb c "+" || Ascii.eqb c "-".

(** [([A-Z0-9_+-]+\.?)*[A-Z0-9_+-]]: atoms and dots, every dot right after
    an atom, an atom at the end. *)
Fixpoint localPart (afterAtom : bool) (s : string) : bool :=
  match s with
  | EmptyString => afterAtom
  | String c r =>
      if isLocalAtom c then localPart true r
      else if Ascii.eqb c "." then afterAtom && localPart false r
      else false
  end.

Fixpoint allChars (p : ascii -> bool) (s : string) : bool :=
  match s with
  | EmptyString => true
  | String c r => p c && allChars p r
  end.

(** [[A-Z0-9][A-Z0-9\-]*] *)
Definition isLabel (s : string) : bool :=
  match s with
  | EmptyString => false
  | String c r => isAlnum c && allChars (fun d => isAlnum d || Ascii.eqb d "-") r
  end.

(** [([A-Z0-9][A-Z0-9\-]*\.)+[A-Z]{2,}] on the labels between the dots. *)
Fixpoint domainLabels (seen : nat) (labels : list string) : bool :=
  match labels with
  | [] => false
  | [tld] => (1 <=? seen)%nat && (2 <=? String.length tld)%nat && allChars isLetter tld
  | l :: ls => isLabel l && domainLabels (S seen) ls
  end.

Definition asciiEmail (s : string) : bool :=
  match breakAt (Ascii.eqb "@") s with
  | (l, Some d) => localPart false l && domainLabels 0 (split "." d)
  | (_, None) => false
  end.

Definition asciiHost : Host := {|
  toLowerCase := mapString asciiLower;
  toLocaleUpperCase := mapString asciiUpper;
  emailRegex_test := asciiEmail
|}.

(** ** Predicates used in the statements *)

(** A parse step is framed when the issues it finds do not depend on the
    issues found before it: it only appends. *)
Definition framed {A} (m : Parse A) : Prop :=
  forall issues,
    m issues = match m [] with
               | inl e => inl e
               | inr (a, extra) => inr (a, issues ++ extra)
               end.

(** The issue sits strictly below the path [p]. *)
Definition below (p : list PathSeg) (i : ZodIssue) : Prop :=
  exists seg rest, path i = p ++ seg :: rest.

(** The tech entries a list of rows parses to when no knowledge is [NaN]. *)
Definition techOf (t : RawTech) : Tech := mkTech (raw_title t) (Number (raw_knowledge t)).

Definition isNaN (n : number) : bool :=
  match n with NaN => true | _ => false end.

(** The range the knowledge checks accept. *)
Definition inRange (n : number) : bool :=
  num_leb (num_of_Z 1) n && num_leb n (num_of_Z 100).

(** The issues of the knowledge checks on a number that is not [NaN]. *)
Definition knowledge_range_issues (p : list PathSeg) (n : number) : list ZodIssue :=
  (if num_ltb n (num_of_Z 1) then [mkIssue too_small p (msg_too_small 1)] else [])
  ++ (if num_gtb n (num_of_Z 100) then [mkIssue too_big p (msg_too_big 100)] else []).

Definition knowledge_issues (p : list PathSeg) (n : number) : list ZodIssue :=
  if isNaN n then [mkIssue invalid_type p msg_received_nan]
  else knowledge_range_issues p n.

(** The issues of a string with one length check. *)
Definition min_issues (p : list PathSeg) (n : nat) (msg : string) (data : string)
    : list ZodIssue :=
  if (String.length data <? n)%nat then [mkIssue too_small p msg] else [].

(** What one row of the list reports, and the result it parses to. *)
Definition tech_issues (p : list PathSeg) (t : RawTech) : list ZodIssue :=
  min_issues (p ++ [Key "title"]) 1 "O título é obrigatório" (raw_title t)
  ++ knowledge_issues (p ++ [Key "knowledge"]) (Number (raw_knowledge t)).

Definition tech_clean (t : RawTech) : bool :=
  negb (String.length (raw_title t) <? 1)%nat && inRange (Number (raw_knowledge t)).

Definition tech_aborted (t : RawTech) : bool := isNaN (Number (raw_knowledge t)).

Definition tech_result (t : RawTech) : ParseReturn Tech Tech :=
  if tech_aborted t then INVALID
  else if tech_clean t then OK (techOf t) else DIRTY (techOf t).

Fixpoint items_issues (p : list PathSeg) (i : nat) (techs : list RawTech) : list ZodIssue :=
  match techs with
  | [] => []
  | t :: ts => tech_issues (p ++ [Index i]) t ++ items_issues p (S i) ts
  end.

(** [techs.some((tech) => tech.knowledge > 50)] on the parsed rows. *)
Definition someAbove50 (techs : list RawTech) : bool :=
  existsb (fun tech => num_gtb (knowledge tech) (num_of_Z 50)) (techOf <$> techs).

Definition msg_min_techs : string := "Insira pelo menos 2 tecnologias".
Definition msg_learning : string := "Você está aprendendo".

(** What the list of rows reports: the length check first, then the rows
    in order, then the refinement unless a row aborted the array. *)
Definition techs_issues (p : list PathSeg) (techs : list RawTech) : list ZodIssue :=
  (if (List.length techs <? 2)%nat then [mkIssue too_small p msg_min_techs] else [])
  ++ items_issues p 0 techs
  ++ (if existsb tech_aborted techs then []
      else if someAbove50 techs then [] else [mkIssue custom p msg_learning]).

Definition techs_result (techs : list RawTech) : ParseReturn (list Tech) (list Tech) :=
  if existsb tech_aborted techs then INVALID
  else (if (List.length techs <? 2)%nat || negb (forallb tech_clean techs)
           || negb (someAbove50 techs)
        then DIRTY else OK) (techOf <$> techs).

(** What a file list with a first file reports. *)
Definition avatar_issues (p : list PathSeg) (f : File.t) : list ZodIssue :=
  (if (File.size f <=? AvatarApp.MAX_FILE_SIZE)%N then []
   else [mkIssue custom p "Tamanho máximo de 5MB"])
  ++ (if includes AvatarApp.ACCEPTED_IMAGE_TYPES (File.type f) then []
      else [mkIssue custom p "Formato de imagem inválido"]).

(** What an e-mail reports. *)
Definition email_issues `{Host} (p : list PathSeg) (email : string) : list ZodIssue :=
  min_issues p 1 "O email é obrigatório" email
  ++ (if emailRegex_test email then []
      else [mkIssue invalid_string p "Formato de email inválido"])
  ++ (if endsWith (toLowerCase email) "@hotmail.com" then []
      else [mkIssue custom p "O email precisa ser do hotmail"]).

(** The transform of the name as the specification words it: trim, split on
    spaces, upper-case the first letter of each word, join with single
    spaces.  A word without a first letter is left as it is. *)
Definition capitalize_spec `{Host} (word : string) : string :=
  match charAt0 word with
  | Some c => (toLocaleUpperCase c ++ substring1 word)%string
  | None => word
  end.

Definition normalize_name_spec `{Host} (name : string) : string :=
  join " " (capitalize_spec <$> split " " (trim name)).

(** A result agrees with a list of issues when it is the valid value for
    the empty list and not valid otherwise. *)
Definition agrees {D O} (r : ParseReturn D O) (v : O) (issues : list ZodIssue) : Prop :=
  match issues with
  | [] => r = OK v
  | _ => isValid r = false
  end.

(** What the whole form reports when no callback throws, field by field in
    the order of the schema. *)
Definition form_issues `{Host} (f : File.t) (name email password : string)
    (techs : list RawTech) : list ZodIssue :=
  avatar_issues [Key "avatar"] f
  ++ min_issues [Key "name"] 1 "O nome é obrigatório" name
  ++ email_issues [Key "email"] email
  ++ min_issues [Key "password"] 6 "A senha precisa de no mínimo 6 caracteres" password
  ++ techs_issues [Key "techs"] techs.

(** The name has no word the transform would throw on. *)
Definition name_safe (name : string) : bool :=
  (String.length name <? 1)%nat || negb (existsb (String.eqb "") (split " " (trim name))).

(** The number of times the storage promise settled in a run of events. *)
Fixpoint settles (events : list AvatarApp.Event) : nat :=
  match events with
  | [] => 0
  | AvatarApp.UploadSettled _ :: es => S (settles es)
  | _ :: es => settles es
  end.

(** The flag is set while [createUser] waits for the storage. *)
Definition flag_tracks_upload (s : AvatarApp.FormState) : Prop :=
  is_Some (AvatarApp.uploading s) -> AvatarApp.isSubmitting s = true.

(** A field whose result is not valid makes the merged object not valid. *)
Ltac not_valid r :=
  destruct r; simpl in *; try discriminate;
  repeat match goal with
         | |- context [if ?b then _ else _] => destruct b
         end;
  reflexivity.

(** A form filled in correctly, for running the model. *)
Definition sampleFile : File.t := File.mk "ana.png" 204800 "image/png".
Definition sampleValues : AvatarApp.FieldValues :=
  AvatarApp.mkFieldValues (Some [sampleFile]) " ana maria " "Ana@Hotmail.COM" "123456"
    [mkRawTech "React" (RawStr "80"); mkRawTech "Node" (RawStr "50.5")].
Definition sampleData : AvatarApp.CreateUserFormData :=
  AvatarApp.mkData (Some sampleFile) "Ana Maria" "ana@hotmail.com" "123456"
    [mkTech "React" (Finite 80); mkTech "Node" (Finite (101 # 2))].

(** ** Predicates of the further properties *)

(** What holds of the object a successful validation hands to
    [createUser]. *)
Definition validated (d : AvatarApp.CreateUserFormData) : Prop :=
  (exists f, AvatarApp.avatar d = Some f
             /\ (File.size f <= AvatarApp.MAX_FILE_SIZE)%N
             /\ File.type f ∈ AvatarApp.ACCEPTED_IMAGE_TYPES)
  /\ endsWith (AvatarApp.email d) "@hotmail.com" = true
  /\ (6 <= String.length (AvatarApp.password d))%nat
  /\ (2 <= List.length (AvatarApp.techs d))%nat
  /\ Forall (fun t => title t <> "" /\ inRange (knowledge t) = true) (AvatarApp.techs d)
  /\ Exists (fun t => num_gtb (knowledge t) (num_of_Z 50) = true) (AvatarApp.techs d).

(** A call to the storage bucket the validator let through. *)
Definition validated_call (c : string * File.t) : Prop :=
  c.1 = File.name c.2
  /\ (File.size c.2 <= AvatarApp.MAX_FILE_SIZE)%N
  /\ File.type c.2 ∈ AvatarApp.ACCEPTED_IMAGE_TYPES.

(** The number of submit events in a run. *)
Fixpoint submits (events : list AvatarApp.Event) : nat :=
  match events with
  | [] => 0
  | AvatarApp.Submit :: es => S (submits es)
  | _ :: es => submits es
  end.

(** What the basic form reports when the transform of the name does not
    throw. *)
Definition basic_issues `{Host} (name email password : string)
    (techs : list RawTech) : list ZodIssue :=
  min_issues [Key "name"] 1 "O nome é obrigatório" name
  ++ email_issues [Key "email"] email
  ++ min_issues [Key "password"] 6 "A senha precisa de no mínimo 6 caracteres" password
  ++ techs_issues [Key "techs"] techs.

(** The result of the form with the avatar, seen as a result of the basic
    form: the avatar is dropped from the data. *)
Definition forgetAvatar (r : Js (SafeParseReturn AvatarApp.CreateUserFormData))
    : Js (SafeParseReturn App.CreateUserFormData) :=
  match r with
  | inl e => inl e
  | inr (Success d) =>
      inr (Success (App.mkData (AvatarApp.name d) (AvatarApp.email d)
                      (AvatarApp.password d) (AvatarApp.techs d)))
  | inr (Failure issues) => inr (Failure issues)
  end.

(** What every state of the page satisfies: only validated data is
    uploaded, awaited or shown. *)
Definition page_invariant (s : AvatarApp.FormState) : Prop :=
  Forall validated_call (AvatarApp.stored s)
  /\ (forall d, AvatarApp.uploading s = Some d -> validated d)
  /\ (forall d, AvatarApp.output s = Some d -> validated d).

(** The data awaited or shown went to the storage first. *)
Definition sent (s : AvatarApp.FormState) (d : AvatarApp.CreateUserFormData) : Prop :=
  exists f, AvatarApp.avatar d = Some f /\ (File.name f, f) ∈ AvatarApp.stored s.

Definition upload_first (s : AvatarApp.FormState) : Prop :=
  (forall d, AvatarApp.uploading s = Some d -> sent s d)
  /\ (forall d, AvatarApp.output s = Some d -> sent s d).

(** The flag is set and no upload is awaited: the submit that set the flag
    is over, and the button it disabled is the only way to start another. *)
Definition stuck (s : AvatarApp.FormState) : Prop :=
  AvatarApp.isSubmitting s = true /\ AvatarApp.uploading s = None.

(** * Theorems *)

(** ** The JavaScript functions on sample inputs *)

Example Number_ex1 : Number (RawStr " 50.5 ") = Finite (101 # 2).
Proof. vm_compute. reflexivity. Qed.
Example Number_ex2 : Number (RawStr "1e2") = Finite (100 # 1).
Proof. vm_compute. reflexivity. Qed.
Example Number_ex3 : Number (RawStr "abc") = NaN.
Proof. vm_compute. reflexivity. Qed.
Example Number_ex4 : Number (RawStr "-.5e1") = Finite (-5 # 1).
Proof. vm_compute. reflexivity. Qed.
Example Number_ex5 : Number (RawStr "0x1F") = Finite (31 # 1).
Proof. vm_compute. reflexivity. Qed.
Example Number_ex6 : Number (RawStr "1.") = Finite (1 # 1) /\ Number (RawStr ".") = NaN
  /\ Number (RawStr "-Infinity") = NegInfinity /\ Number (RawStr "1e") = NaN
  /\ Number (RawStr "25e-1") = Finite (5 # 2) /\ Number (RawStr "-0x10") = NaN.
Proof. vm_compute. repeat split; reflexivity. Qed.
(** Literals that are not binary64 values are rounded to the nearest one:
    next to a bound of the schema the rounded value decides. *)
Example Number_ex7 : Number (RawStr "100.00000000000000001") = Finite (100 # 1)
  /\ Number (RawStr "0.99999999999999999999") = Finite (1 # 1)
  /\ Number (RawStr "50.0000000000000001") = Finite (50 # 1)
  /\ Number (RawStr "9007199254740993") = Finite (9007199254740992 # 1)
  /\ Number (RawStr "0.1") = Finite (3602879701896397 # 36028797018963968)
  /\ Number (RawStr "1.7976931348623159e308") = PosInfinity
  /\ Number (RawStr "2e-324") = Finite (0 # 1).
Proof. vm_compute. repeat split; reflexivity. Qed.
Example split_ex : split " " "a  b" = ["a"; ""; "b"] /\ split " " "" = [""]
  /\ trim "  a b  " = "a b" /\ join " " ["a"; ""; "b"] = "a  b"
  /\ endsWith "x@hotmail.com" "@hotmail.com" = true /\ endsWith "com" "@hotmail.com" = false.
Proof. vm_compute. repeat split; reflexivity. Qed.

(** ** The parse monad *)

Lemma framed_ret {A} (a : A) : framed (ret a).
Proof. intros issues. unfold ret. by rewrite app_nil_r. Qed.

Lemma framed_addIssue i : framed (addIssue i).
Proof. intros issues. reflexivity. Qed.

Lemma framed_call {A} (r : Js A) : framed (call r).
Proof. intros issues. unfold call. destruct r; [done|]. by rewrite app_nil_r. Qed.

Lemma framed_bind {A B} (m : Parse A) (k : A -> Parse B) :
  framed m -> (forall a, framed (k a)) -> framed (bind m k).
Proof.
  intros Hm Hk issues. unfold bind. rewrite (Hm issues).
  destruct (m []) as [e|[a extra]]; [done|].
  rewrite (Hk a (issues ++ extra)), (Hk a extra).
  destruct (k a []) as [e|[b extra']]; [done|].
  by rewrite app_assoc.
Qed.

Lemma framed_if {A} (b : bool) (m1 m2 : Parse A) :
  framed m1 -> framed m2 -> framed (if b then m1 else m2).
Proof. by destruct b. Qed.

Create HintDb framed.
#[local] Hint Resolve framed_ret framed_addIssue framed_call framed_bind framed_if : framed.

Lemma framed_stringChecks `{Host} p checks data dirty :
  framed (stringChecks p checks data dirty).
Proof.
  revert data dirty.
  induction checks as [|[n msg|msg|] cs IH]; intros data dirty; simpl; auto with framed.
Qed.

Lemma framed_numberChecks p checks data dirty :
  framed (numberChecks p checks data dirty).
Proof.
  revert dirty.
  induction checks as [|[v|v] cs IH]; intros dirty; simpl; auto with framed.
Qed.

Lemma framed_z_coerce_number checks p data : framed (z_coerce_number checks p data).
Proof.
  unfold z_coerce_number.
  destruct (Number data); auto using framed_numberChecks with framed.
Qed.

Lemma framed_refine {I O} (check : O -> Js bool) msg (schema : ZodType I O O) p data :
  framed (schema p data) -> framed (refine check msg schema p data).
Proof.
  intros Hs. unfold refine. apply framed_bind; [done|].
  intros [v|v|]; auto 6 with framed.
Qed.

Lemma framed_transform {I D O O'} (f : O -> Js O') (schema : ZodType I D O) p data :
  framed (schema p data) -> framed (transform f schema p data).
Proof.
  intros Hs. unfold transform. apply framed_bind; [done|].
  intros [v|v|]; auto with framed.
Qed.

Lemma framed_parseItems {I O} (element : ZodType I O O) p i items :
  (forall q x, framed (element q x)) -> framed (parseItems element p i items).
Proof.
  intros He. revert i.
  induction items as [|x xs IH]; intros i; simpl; auto 6 with framed.
Qed.

Lemma framed_z_array_min {I O} (element : ZodType I O O) n msg p data :
  (forall q x, framed (element q x)) -> framed (z_array_min element n msg p data).
Proof.
  intros He. unfold z_array_min.
  apply framed_bind; [auto with framed|].
  intros d. apply framed_bind; [by apply framed_parseItems|]. auto with framed.
Qed.

(** ** The field schemas, step by step *)

Lemma z_string_min_run `{Host} n msg p data issues :
  z_string [min_check n msg] p data issues
  = inr (if (String.length data <? n)%nat then DIRTY data else OK data,
         issues ++ min_issues p n msg data).
Proof.
  unfold z_string, min_issues. simpl.
  destruct (String.length data <? n)%nat; simpl.
  - reflexivity.
  - unfold ret. by rewrite app_nil_r.
Qed.

Lemma inRange_checks n :
  isNaN n = false ->
  inRange n = negb (num_ltb n (num_of_Z 1)) && negb (num_gtb n (num_of_Z 100)).
Proof.
  destruct n as [| |q|]; simpl; try done.
  intros _. unfold inRange, num_gtb. simpl. by rewrite !negb_involutive.
Qed.

Lemma knowledge_schema_run p raw issues :
  knowledge_schema p raw issues
  = inr (if isNaN (Number raw) then INVALID
         else if inRange (Number raw) then OK (Number raw) else DIRTY (Number raw),
         issues ++ knowledge_issues p (Number raw)).
Proof.
  unfold knowledge_schema, z_coerce_number, knowledge_issues.
  destruct (isNaN (Number raw)) eqn:Hnan.
  - destruct (Number raw); try discriminate. reflexivity.
  - rewrite (inRange_checks _ Hnan). unfold knowledge_range_issues.
    assert (Hrun : numberChecks p [num_min 1; num_max 100] (Number raw) false issues
      = inr (if negb (num_ltb (Number raw) (num_of_Z 1))
                  && negb (num_gtb (Number raw) (num_of_Z 100))
             then OK (Number raw) else DIRTY (Number raw),
             issues
             ++ (if num_ltb (Number raw) (num_of_Z 1)
                 then [mkIssue too_small p (msg_too_small 1)] else [])
             ++ (if num_gtb (Number raw) (num_of_Z 100)
                 then [mkIssue too_big p (msg_too_big 100)] else []))).
    { cbn [numberChecks].
      destruct (num_ltb (Number raw) (num_of_Z 1));
        destruct (num_gtb (Number raw) (num_of_Z 100));
        unfold bind, addIssue, ret; cbn [negb andb app];
        rewrite <- ?app_assoc, ?app_nil_r; reflexivity. }
    destruct (Number raw); try discriminate; exact Hrun.
Qed.

Lemma tech_schema_run `{Host} p t issues :
  tech_schema p t issues = inr (tech_result t, issues ++ tech_issues p t).
Proof.
  unfold tech_schema, title_schema, nonempty, bind.
  rewrite z_string_min_run, knowledge_schema_run.
  unfold ret, tech_result, tech_issues, tech_aborted, tech_clean, techOf.
  rewrite <- app_assoc.
  destruct (String.length (raw_title t) <? 1)%nat;
    destruct (isNaN (Number (raw_knowledge t)));
    destruct (inRange (Number (raw_knowledge t))); reflexivity.
Qed.

Lemma parseItems_tech_run `{Host} p i techs issues :
  parseItems tech_schema p i techs issues
  = inr (tech_result <$> techs, issues ++ items_issues p i techs).
Proof.
  revert i issues.
  induction techs as [|t ts IH]; intros i issues; simpl.
  - unfold ret. by rewrite app_nil_r.
  - unfold bind. rewrite tech_schema_run, IH. unfold ret.
    by rewrite <- app_assoc.
Qed.

Lemma mergeArray_tech_aborted dirty techs acc :
  existsb tech_aborted techs = true ->
  mergeArray dirty (tech_result <$> techs) acc = INVALID.
Proof.
  revert dirty acc.
  induction techs as [|t ts IH]; intros dirty acc; simpl; [done|].
  unfold tech_result at 1.
  destruct (tech_aborted t); simpl; [done|].
  intros Hex. destruct (tech_clean t); by apply IH.
Qed.

Lemma mergeArray_tech_value dirty techs acc :
  existsb tech_aborted techs = false ->
  mergeArray dirty (tech_result <$> techs) acc
  = (if dirty || negb (forallb tech_clean techs) then DIRTY else OK)
      (acc ++ (techOf <$> techs)).
Proof.
  revert dirty acc.
  induction techs as [|t ts IH]; intros dirty acc; simpl.
  - intros _. rewrite app_nil_r, orb_false_r. by destruct dirty.
  - unfold tech_result at 1.
    destruct (tech_aborted t); simpl; [done|].
    intros Hex. destruct (tech_clean t); simpl; rewrite (IH _ _ Hex), <- app_assoc; simpl.
    + reflexivity.
    + by rewrite orb_true_r.
Qed.

Lemma techs_schema_run `{Host} p techs issues :
  techs_schema p techs issues = inr (techs_result techs, issues ++ techs_issues p techs).
Proof.
  unfold techs_schema, refine, z_array_min, techs_result, techs_issues.
  fold msg_min_techs msg_learning.
  unfold bind, addIssue, ret, call.
  destruct (List.length techs <? 2)%nat eqn:Hlen;
    rewrite parseItems_tech_run;
    (destruct (existsb tech_aborted techs) eqn:Hab;
     [ rewrite (mergeArray_tech_aborted _ _ _ Hab), app_nil_r, <- ?app_assoc; reflexivity
     | rewrite (mergeArray_tech_value _ _ _ Hab); cbn [app orb];
       unfold someAbove50;
       destruct (negb (forallb tech_clean techs));
         destruct (existsb _ (techOf <$> techs)); cbn [negb orb];
         rewrite <- ?app_assoc, ?app_nil_r; reflexivity ]).
Qed.

Lemma knowledge_issues_nonempty p n : inRange n = false -> knowledge_issues p n <> [].
Proof.
  unfold knowledge_issues. destruct (isNaN n) eqn:Hn; [done|].
  rewrite (inRange_checks _ Hn). unfold knowledge_range_issues.
  destruct (num_ltb n (num_of_Z 1)); [done|].
  destruct (num_gtb n (num_of_Z 100)); done.
Qed.

Lemma knowledge_issues_nil p n : knowledge_issues p n = [] <-> inRange n = true.
Proof.
  split.
  - intros Hnil. destruct (inRange n) eqn:Hr; [done|].
    by apply (knowledge_issues_nonempty p) in Hr.
  - intros Hr. unfold knowledge_issues.
    destruct (isNaN n) eqn:Hn; [by destruct n|].
    rewrite (inRange_checks _ Hn) in Hr. apply andb_true_iff in Hr as [H1 H2].
    apply negb_true_iff in H1, H2. unfold knowledge_range_issues. by rewrite H1, H2.
Qed.

Lemma tech_issues_nil p t : tech_issues p t = [] <-> tech_clean t = true.
Proof.
  unfold tech_issues, tech_clean, min_issues.
  rewrite andb_true_iff, <- (knowledge_issues_nil (p ++ [Key "knowledge"])).
  destruct (String.length (raw_title t) <? 1)%nat; simpl.
  - split; [done|]. by intros [? _].
  - split; [by intros ->|by intros [_ ->]].
Qed.

Lemma tech_clean_not_aborted t : tech_clean t = true -> tech_aborted t = false.
Proof.
  unfold tech_clean, tech_aborted. intros [_ Hr]%andb_true_iff.
  by destruct (Number (raw_knowledge t)).
Qed.

Lemma items_issues_nil p i techs :
  items_issues p i techs = [] <-> forallb tech_clean techs = true.
Proof.
  revert i. induction techs as [|t ts IH]; intros i; simpl; [done|].
  rewrite andb_true_iff, <- (IH (S i)), <- (tech_issues_nil (p ++ [Index i])).
  split.
  - by intros [? ?]%app_eq_nil.
  - by intros [-> ->].
Qed.

Lemma forallb_clean_not_aborted techs :
  forallb tech_clean techs = true -> existsb tech_aborted techs = false.
Proof.
  induction techs as [|t ts IH]; simpl; [done|].
  intros [Ht Hts]%andb_true_iff.
  by rewrite (tech_clean_not_aborted _ Ht), (IH Hts).
Qed.

Lemma techs_agrees p techs :
  agrees (techs_result techs) (techOf <$> techs) (techs_issues p techs).
Proof.
  unfold agrees.
  destruct (techs_issues p techs) as [|i l] eqn:Hi.
  - unfold techs_issues in Hi.
    apply app_eq_nil in Hi as [Hmin Hi]. apply app_eq_nil in Hi as [Hitems Hlearn].
    apply items_issues_nil in Hitems.
    unfold techs_result. rewrite (forallb_clean_not_aborted _ Hitems) in *.
    rewrite Hitems.
    destruct (List.length techs <? 2)%nat; [discriminate|].
    destruct (someAbove50 techs); [done|discriminate].
  - destruct (isValid (techs_result techs)) eqn:Hv; [|done]. exfalso.
    unfold techs_result in Hv.
    destruct (existsb tech_aborted techs) eqn:Hab; [discriminate|].
    destruct (List.length techs <? 2)%nat eqn:Hlen; [discriminate|].
    destruct (forallb tech_clean techs) eqn:Hc; [|discriminate].
    destruct (someAbove50 techs) eqn:Hs; [|discriminate].
    unfold techs_issues in Hi. rewrite Hlen, Hab, Hs in Hi.
    apply (items_issues_nil p 0) in Hc. rewrite Hc in Hi. discriminate.
Qed.

Lemma safeParse_techs `{Host} techs :
  safeParse techs_schema techs
  = inr (match techs_result techs with
         | OK v => Success v
         | _ => Failure (techs_issues [] techs)
         end).
Proof.
  unfold safeParse. rewrite techs_schema_run. simpl app.
  by destruct (techs_result techs).
Qed.

Lemma items_issues_below p i techs : Forall (below p) (items_issues p i techs).
Proof.
  revert i. induction techs as [|t ts IH]; intros i; simpl; [constructor|].
  apply Forall_app. split; [|apply IH].
  unfold tech_issues, min_issues, knowledge_issues, knowledge_range_issues.
  repeat apply Forall_app_2;
    repeat match goal with |- context [if ?b then _ else _] => destruct b end;
    repeat constructor; eexists _, _; simpl; by rewrite <- app_assoc.
Qed.

Lemma below_not_at p i : below p i -> path i <> p.
Proof.
  intros (seg & rest & Hp) Heq. rewrite Heq in Hp.
  apply (f_equal List.length) in Hp. rewrite length_app in Hp. simpl in Hp. lia.
Qed.

Lemma inRange_spec n :
  inRange n = true <-> exists q, n = Finite q /\ (1 <= q)%Q /\ (q <= 100)%Q.
Proof.
  unfold inRange. destruct n as [| |q|]; simpl.
  - split; [done|]. by intros (q & ? & _).
  - split; [done|]. by intros (q & ? & _).
  - rewrite andb_true_iff, !Qle_bool_iff. split.
    + intros [H1 H2]. by exists q.
    + intros (q' & [= <-] & H1 & H2). done.
  - split; [done|]. by intros (q & ? & _).
Qed.

Lemma safeParse_knowledge raw :
  safeParse knowledge_schema raw
  = inr (if inRange (Number raw) then Success (Number raw)
         else Failure (knowledge_issues [] (Number raw))).
Proof.
  unfold safeParse. rewrite knowledge_schema_run. simpl app.
  destruct (isNaN (Number raw)) eqn:Hn.
  - destruct (Number raw); try discriminate. reflexivity.
  - by destruct (inRange (Number raw)).
Qed.

Lemma safeParse_tech `{Host} t :
  safeParse tech_schema t
  = inr (match tech_result t with
         | OK v => Success v
         | _ => Failure (tech_issues [] t)
         end).
Proof.
  unfold safeParse. rewrite tech_schema_run. simpl app.
  by destruct (tech_result t).
Qed.

Lemma tech_issues_message p t i :
  i ∈ tech_issues p t ->
  message i = "O título é obrigatório" \/ message i = msg_received_nan
  \/ message i = msg_too_small 1 \/ message i = msg_too_big 100.
Proof.
  unfold tech_issues, min_issues, knowledge_issues, knowledge_range_issues.
  intros Hin. apply elem_of_app in Hin as [Hin|Hin].
  - destruct (String.length (raw_title t) <? 1)%nat.
    + apply list_elem_of_singleton in Hin as ->. by left.
    + by apply elem_of_nil in Hin.
  - destruct (isNaN (Number (raw_knowledge t))).
    + apply list_elem_of_singleton in Hin as ->. right. by left.
    + apply elem_of_app in Hin as [Hin|Hin].
      * destruct (num_ltb _ _).
        -- apply list_elem_of_singleton in Hin as ->. right. right. by left.
        -- by apply elem_of_nil in Hin.
      * destruct (num_gtb _ _).
        -- apply list_elem_of_singleton in Hin as ->. right. right. by right.
        -- by apply elem_of_nil in Hin.
Qed.

(** ** Knowledge of a tech entry *)

(** C4 (amended).  The knowledge of a tech entry is [Number(raw)], a number
    that need not be an integer.  The validator accepts the entry's
    knowledge exactly when that number is finite and lies between 1 and 100
    inclusive, and then returns it unchanged; in every other case (a value
    below 1 or above 100, an infinity, or an input that coerces to NaN) it
    fails with at least one issue. *)
Theorem knowledge_accepted_iff_in_range (raw : RawNumber) :
  (exists q, Number raw = Finite q /\ (1 <= q)%Q /\ (q <= 100)%Q
             /\ safeParse knowledge_schema raw = inr (Success (Finite q)))
  \/ ((forall q, Number raw = Finite q -> ~ ((1 <= q)%Q /\ (q <= 100)%Q))
      /\ exists issues, issues <> []
                        /\ safeParse knowledge_schema raw = inr (Failure issues)).
Proof.
  rewrite safeParse_knowledge.
  destruct (inRange (Number raw)) eqn:Hr.
  - left. apply inRange_spec in Hr as (q & Hq & H1 & H2).
    exists q. by rewrite Hq.
  - right. split.
    + intros q Hq [H1 H2].
      assert (inRange (Number raw) = true) by (apply inRange_spec; by exists q).
      congruence.
    + eexists. split; [|reflexivity]. by apply knowledge_issues_nonempty.
Qed.

(** C4, as stated, fails: the input [50.5] coerces to a number that is not
    an integer, and the validator accepts it. *)
Lemma knowledge_fraction_accepted :
  isInteger (Number (RawStr "50.5")) = false
  /\ safeParse knowledge_schema (RawStr "50.5") = inr (Success (Finite (101 # 2))).
Proof. split; vm_compute; reflexivity. Qed.

(** C10.  A tech entry whose knowledge input is the empty string: the
    coercion gives the number 0, the validator fails, and among its issues
    is the [too_small] issue of the bound 1 at the entry's [knowledge] key.
    No issue the validator ever raises for a tech entry carries the message
    of a missing value, "Required". *)
Theorem empty_knowledge_is_range_error `{Host} (t : RawTech) :
  raw_knowledge t = RawStr "" ->
  Number (raw_knowledge t) = Finite 0
  /\ (exists issues,
        safeParse tech_schema t = inr (Failure issues)
        /\ mkIssue too_small [Key "knowledge"] "Number must be greater than or equal to 1"
           ∈ issues)
  /\ (forall (t' : RawTech) issues i,
        safeParse tech_schema t' = inr (Failure issues) ->
        i ∈ issues -> message i <> "Required").
Proof.
  intros Hraw. split; [by rewrite Hraw|]. split.
  - rewrite safeParse_tech.
    unfold tech_result, tech_aborted, tech_clean, tech_issues. rewrite Hraw.
    change (Number (RawStr "")) with (Finite 0).
    exists (tech_issues [] t). split.
    + unfold tech_issues. rewrite Hraw. cbn [isNaN].
      replace (inRange (Finite 0)) with false by reflexivity.
      by rewrite andb_false_r.
    + unfold tech_issues. rewrite Hraw. apply elem_of_app. right.
      vm_compute. apply list_elem_of_here.
  - intros t' issues i Hp Hin. rewrite safeParse_tech in Hp.
    assert (Hi : i ∈ tech_issues [] t').
    { destruct (tech_result t'); congruence. }
    apply tech_issues_message in Hi as [Hm|[Hm|[Hm|Hm]]];
      rewrite Hm; vm_compute; discriminate.
Qed.

Lemma empty_knowledge_is_range_error_witness :
  raw_knowledge (mkRawTech "React" (RawStr "")) = RawStr ""
  /\ Number (RawStr "") = Finite 0
  /\ exists issues,
       @safeParse _ _ _ (@tech_schema asciiHost) (mkRawTech "React" (RawStr "")) = inr (Failure issues)
       /\ mkIssue too_small [Key "knowledge"] "Number must be greater than or equal to 1"
          ∈ issues.
Proof.
  split; [reflexivity|].
  destruct (@empty_knowledge_is_range_error asciiHost (mkRawTech "React" (RawStr "")) eq_refl)
    as (H1 & H2 & _).
  split; [exact H1 | exact H2].
Defined.

(** ** The list of tech entries *)

Lemma num_leb_not_gtb n m : num_leb n m = true -> num_gtb n m = false.
Proof.
  unfold num_gtb. destruct n as [| |x|], m as [| |y|]; simpl; try done.
  intros ->. done.
Qed.

Lemma num_leb_not_NaN n m : num_leb n m = true -> isNaN n = false.
Proof. by destruct n. Qed.

Lemma techs_issues_learning_at_root p techs c :
  mkIssue c p msg_learning ∈ techs_issues p techs ->
  existsb tech_aborted techs = false /\ someAbove50 techs = false.
Proof.
  unfold techs_issues. rewrite !elem_of_app. intros [Hin|[Hin|Hin]].
  - destruct (List.length techs <? 2)%nat; [|by apply elem_of_nil in Hin].
    apply list_elem_of_singleton in Hin. discriminate Hin.
  - pose proof (items_issues_below p 0 techs) as Hb.
    rewrite Forall_forall in Hb. apply Hb, below_not_at in Hin. done.
  - destruct (existsb tech_aborted techs); [by apply elem_of_nil in Hin|].
    destruct (someAbove50 techs); [by apply elem_of_nil in Hin|]. done.
Qed.

Lemma reports_learning_iff `{Host} techs :
  reports (safeParse techs_schema techs) [] msg_learning
  <-> existsb tech_aborted techs = false /\ someAbove50 techs = false.
Proof.
  unfold reports. rewrite safeParse_techs. split.
  - intros (issues & Hr & c & Hin).
    assert (issues = techs_issues [] techs) as ->.
    { destruct (techs_result techs); congruence. }
    by apply techs_issues_learning_at_root in Hin.
  - intros [Hab Hs]. exists (techs_issues [] techs). split.
    + unfold techs_result. rewrite Hab, Hs. simpl. by rewrite orb_true_r.
    + exists custom. unfold techs_issues. rewrite Hab, Hs.
      rewrite !elem_of_app. right. right. apply list_elem_of_here.
Qed.

(** C6.  A techs array of exactly two entries whose knowledge values are
    both at most 50 fails validation with the message "Você está
    aprendendo".  The same array with the knowledge of either entry changed
    to 51 does not get that message. *)
Theorem techs_learning_rule `{Host} (t1 t2 : RawTech) (raw51 : RawNumber) :
  num_leb (Number (raw_knowledge t1)) (num_of_Z 50) = true ->
  num_leb (Number (raw_knowledge t2)) (num_of_Z 50) = true ->
  Number raw51 = num_of_Z 51 ->
  reports (safeParse techs_schema [t1; t2]) [] "Você está aprendendo"
  /\ ~ reports (safeParse techs_schema [mkRawTech (raw_title t1) raw51; t2]) []
         "Você está aprendendo"
  /\ ~ reports (safeParse techs_schema [t1; mkRawTech (raw_title t2) raw51]) []
         "Você está aprendendo".
Proof.
  intros H1 H2 H51.
  change "Você está aprendendo" with msg_learning.
  rewrite !reports_learning_iff.
  unfold someAbove50, tech_aborted, techOf. cbn [existsb fmap list_fmap raw_knowledge knowledge].
  rewrite H51, (num_leb_not_gtb _ _ H1), (num_leb_not_gtb _ _ H2),
    (num_leb_not_NaN _ _ H1), (num_leb_not_NaN _ _ H2).
  split; [done|]. split; intros [_ Hs]; vm_compute in Hs; discriminate.
Qed.

Lemma techs_learning_rule_witness :
  num_leb (Number (RawStr "50")) (num_of_Z 50) = true
  /\ num_leb (Number (RawStr "10")) (num_of_Z 50) = true
  /\ Number (RawStr "51") = num_of_Z 51
  /\ reports (@safeParse _ _ _ (@techs_schema asciiHost)
                [mkRawTech "React" (RawStr "50"); mkRawTech "Node" (RawStr "10")]) []
       "Você está aprendendo"
  /\ ~ reports (@safeParse _ _ _ (@techs_schema asciiHost)
                  [mkRawTech "React" (RawStr "51"); mkRawTech "Node" (RawStr "10")]) []
         "Você está aprendendo".
Proof.
  assert (Ha : num_leb (Number (RawStr "50")) (num_of_Z 50) = true) by reflexivity.
  assert (Hb : num_leb (Number (RawStr "10")) (num_of_Z 50) = true) by reflexivity.
  assert (Hc : Number (RawStr "51") = num_of_Z 51) by reflexivity.
  destruct (@techs_learning_rule asciiHost (mkRawTech "React" (RawStr "50"))
              (mkRawTech "Node" (RawStr "10")) (RawStr "51") Ha Hb Hc) as (R1 & R2 & _).
  exact (conj Ha (conj Hb (conj Hc (conj R1 R2)))).
Defined.

(** The length of the list after [remove]. *)
Lemma remove_length {A} (fields : list A) (index : nat) :
  List.length (remove fields index)
  = if (index <? List.length fields)%nat then (List.length fields - 1)%nat
    else List.length fields.
Proof.
  unfold remove. revert index.
  induction fields as [|x xs IH]; intros [|i]; simpl; try done.
  - lia.
  - rewrite IH. change (S i <? S (List.length xs))%nat with (i <? List.length xs)%nat.
    destruct (Nat.ltb_spec i (List.length xs)); lia.
Qed.

(** C7.  A techs array with fewer than two entries fails validation, and
    the first issue of the failure is the one with the message "Insira pelo
    menos 2 tecnologias", whatever the knowledge of its entry.  [remove]
    has no lower bound: at any index inside the list it returns a list one
    shorter, also when that leaves fewer than two rows; the shortfall shows
    only in the result of the validator. *)
Theorem techs_min_count `{Host} (techs : list RawTech) :
  (List.length techs < 2)%nat ->
  (exists rest,
     safeParse techs_schema techs
     = inr (Failure (mkIssue too_small [] "Insira pelo menos 2 tecnologias" :: rest)))
  /\ reports (safeParse techs_schema techs) [] "Insira pelo menos 2 tecnologias"
  /\ (forall (fields : list RawTech) (index : nat),
        List.length (remove fields index)
        = if (index <? List.length fields)%nat then (List.length fields - 1)%nat
          else List.length fields).
Proof.
  intros Hlen.
  assert (Hrun : exists rest,
     safeParse techs_schema techs
     = inr (Failure (mkIssue too_small [] "Insira pelo menos 2 tecnologias" :: rest))).
  { rewrite safeParse_techs. unfold techs_result, techs_issues.
    apply Nat.ltb_lt in Hlen. rewrite Hlen. cbn [orb app].
    destruct (existsb tech_aborted techs); eexists; reflexivity. }
  split; [exact Hrun|]. split; [|intros; apply remove_length].
  destruct Hrun as [rest Hrun]. eexists. split; [exact Hrun|].
  exists too_small. apply list_elem_of_here.
Qed.

Lemma techs_min_count_witness :
  (List.length (remove [mkRawTech "React" (RawStr "90"); mkRawTech "Node" (RawStr "90")] 0) < 2)%nat
  /\ reports (@safeParse _ _ _ (@techs_schema asciiHost)
                (remove [mkRawTech "React" (RawStr "90"); mkRawTech "Node" (RawStr "90")] 0))
       [] "Insira pelo menos 2 tecnologias".
Proof.
  assert (Hlen : (List.length (remove [mkRawTech "React" (RawStr "90");
                                       mkRawTech "Node" (RawStr "90")] 0) < 2)%nat)
    by (simpl; lia).
  split; [exact Hlen|].
  exact (proj1 (proj2 (@techs_min_count asciiHost _ Hlen))).
Defined.

(** ** The avatar *)

Lemma avatar_schema_empty p issues :
  AvatarApp.avatar_schema p (Some []) issues
  = inl (TypeError "Cannot read properties of null (reading 'size')").
Proof. reflexivity. Qed.

Lemma avatar_schema_not_FileList p issues :
  AvatarApp.avatar_schema p None issues
  = inr (INVALID, issues ++ [mkIssue custom p "Input not instance of FileList"]).
Proof. reflexivity. Qed.

Lemma avatar_schema_file p f rest issues :
  AvatarApp.avatar_schema p (Some (f :: rest)) issues
  = inr (match avatar_issues p f with
         | [] => OK (Some f)
         | _ => DIRTY (f :: rest)
         end, issues ++ avatar_issues p f).
Proof.
  unfold AvatarApp.avatar_schema, transform, refine, AvatarApp.z_instanceof_FileList,
    avatar_issues, bind, ret, call, addIssue, prop, item.
  change ((f :: rest) !! 0) with (Some f).
  cbn -[N.leb includes AvatarApp.MAX_FILE_SIZE AvatarApp.ACCEPTED_IMAGE_TYPES app].
  destruct (File.size f <=? AvatarApp.MAX_FILE_SIZE)%N;
    change ((f :: rest) !! 0) with (Some f);
    cbn -[N.leb includes AvatarApp.MAX_FILE_SIZE AvatarApp.ACCEPTED_IMAGE_TYPES app];
    destruct (includes AvatarApp.ACCEPTED_IMAGE_TYPES (File.type f));
    cbn [app]; rewrite <- ?app_assoc, ?app_nil_r; reflexivity.
Qed.

Lemma safeParse_avatar_file f rest :
  safeParse AvatarApp.avatar_schema (Some (f :: rest))
  = inr (match avatar_issues [] f with
         | [] => Success (Some f)
         | _ => Failure (avatar_issues [] f)
         end).
Proof.
  unfold safeParse. rewrite avatar_schema_file. simpl app.
  by destruct (avatar_issues [] f).
Qed.

Lemma reports_issues {O} (v : O) (l : list ZodIssue) p msg :
  reports (inr (match l with [] => Success v | _ => Failure l end)) p msg
  <-> exists c, mkIssue c p msg ∈ l.
Proof.
  unfold reports. split.
  - intros (issues & Hr & Hc). destruct l; [discriminate|].
    injection Hr as <-. exact Hc.
  - intros [c Hin]. destruct l as [|i l]; [by apply elem_of_nil in Hin|].
    eexists. split; [reflexivity|]. by exists c.
Qed.

Lemma includes_elem_of l x : includes l x = true <-> x ∈ l.
Proof.
  unfold includes. rewrite existsb_exists. split.
  - intros (y & Hy & Heq). apply String.eqb_eq in Heq as ->. by apply list_elem_of_In.
  - intros Hin. exists x. split; [by apply list_elem_of_In|apply String.eqb_refl].
Qed.

Lemma avatar_issues_size p f c :
  mkIssue c p "Tamanho máximo de 5MB" ∈ avatar_issues p f
  <-> c = custom /\ (AvatarApp.MAX_FILE_SIZE < File.size f)%N.
Proof.
  unfold avatar_issues. rewrite elem_of_app.
  destruct (N.leb_spec (File.size f) AvatarApp.MAX_FILE_SIZE) as [Hs|Hs];
    destruct (includes AvatarApp.ACCEPTED_IMAGE_TYPES (File.type f));
    rewrite ?list_elem_of_singleton, ?elem_of_nil; split;
    try (intros [Hx|Hx]; try done; try discriminate Hx);
    try (intros [_ Hx]; lia).
  - injection Hx as ->. done.
  - intros [-> _]. by left.
  - injection Hx as ->. done.
  - intros [-> _]. by left.
Qed.

Lemma avatar_issues_type p f c :
  mkIssue c p "Formato de imagem inválido" ∈ avatar_issues p f
  <-> c = custom /\ File.type f ∉ AvatarApp.ACCEPTED_IMAGE_TYPES.
Proof.
  unfold avatar_issues. rewrite elem_of_app, <- includes_elem_of.
  destruct (File.size f <=? AvatarApp.MAX_FILE_SIZE)%N;
    destruct (includes AvatarApp.ACCEPTED_IMAGE_TYPES (File.type f));
    rewrite ?list_elem_of_singleton, ?elem_of_nil; split;
    try (intros [Hx|Hx]; try done; try discriminate Hx);
    try (intros [_ Hx]; done).
  - injection Hx as ->. done.
  - intros [-> _]. by right.
  - injection Hx as ->. done.
  - intros [-> _]. by right.
Qed.

(** C5.  For every file list with a first file: the size message "Tamanho
    máximo de 5MB" is reported exactly when the file is larger than
    5*1024*1024 bytes, so a file of 6MB fails the size rule and a file of
    exactly 5MB passes it; the type message "Formato de imagem inválido" is
    reported exactly when the MIME type is outside the accepted list,
    whatever the size, and "image/gif" is outside it. *)
Theorem avatar_size_and_type (f : File.t) (rest : FileList) :
  (reports (safeParse AvatarApp.avatar_schema (Some (f :: rest))) [] "Tamanho máximo de 5MB"
   <-> (5 * 1024 * 1024 < File.size f)%N)
  /\ (reports (safeParse AvatarApp.avatar_schema (Some (f :: rest))) []
        "Formato de imagem inválido"
      <-> File.type f ∉ ["image/jpeg"; "image/jpg"; "image/png"; "image/webp"])
  /\ AvatarApp.MAX_FILE_SIZE = (5 * 1024 * 1024)%N
  /\ (AvatarApp.MAX_FILE_SIZE < 6 * 1024 * 1024)%N
  /\ "image/gif" ∉ AvatarApp.ACCEPTED_IMAGE_TYPES.
Proof.
  change ["image/jpeg"; "image/jpg"; "image/png"; "image/webp"]
    with AvatarApp.ACCEPTED_IMAGE_TYPES.
  change (5 * 1024 * 1024)%N with AvatarApp.MAX_FILE_SIZE.
  rewrite safeParse_avatar_file, !reports_issues.
  split; [|split; [|split; [reflexivity|split; [reflexivity|]]]].
  - split.
    + intros [c Hc]. by apply avatar_issues_size in Hc as [_ ?].
    + intros Hs. exists custom. by apply avatar_issues_size.
  - split.
    + intros [c Hc]. by apply avatar_issues_type in Hc as [_ ?].
    + intros Ht. exists custom. by apply avatar_issues_type.
  - rewrite <- includes_elem_of. by vm_compute.
Qed.

(** ** The e-mail *)

Lemma email_schema_run `{Host} p email issues :
  email_schema p email issues
  = inr (match email_issues p email with
         | [] => OK (toLowerCase email)
         | _ => DIRTY (toLowerCase email)
         end, issues ++ email_issues p email).
Proof.
  unfold email_schema, refine, z_string, nonempty, email_issues, min_issues.
  unfold bind, call. cbn [stringChecks].
  destruct (String.length email <? 1)%nat;
    destruct (emailRegex_test email);
    unfold bind, addIssue, ret; cbn beta iota;
    destruct (endsWith (toLowerCase email) "@hotmail.com");
    cbn [app]; rewrite <- ?app_assoc, ?app_nil_r; reflexivity.
Qed.

Lemma safeParse_email `{Host} email :
  safeParse email_schema email
  = inr (match email_issues [] email with
         | [] => Success (toLowerCase email)
         | _ => Failure (email_issues [] email)
         end).
Proof.
  unfold safeParse. rewrite email_schema_run. simpl app.
  by destruct (email_issues [] email).
Qed.

Lemma email_issues_hotmail `{Host} p email c :
  mkIssue c p "O email precisa ser do hotmail" ∈ email_issues p email
  <-> c = custom /\ endsWith (toLowerCase email) "@hotmail.com" = false.
Proof.
  unfold email_issues, min_issues. rewrite !elem_of_app.
  destruct (String.length email <? 1)%nat;
    destruct (emailRegex_test email);
    destruct (endsWith (toLowerCase email) "@hotmail.com");
    rewrite ?list_elem_of_singleton, ?elem_of_nil; split;
    try (intros [Hx|[Hx|Hx]]; try done; try discriminate Hx; injection Hx as ->; done);
    try (intros [_ Hx]; done);
    intros [-> _]; auto.
Qed.

(** C3.  For every e-mail that is not empty and is syntactically valid, the
    validator lower-cases it and succeeds with the lower-cased e-mail when
    that ends with "@hotmail.com", and otherwise fails with the single
    issue "O email precisa ser do hotmail".  For every e-mail at all, that
    message is reported exactly when the lower-cased e-mail does not end
    with the suffix: the letter case of the input plays no part. *)
Theorem email_hotmail_rule `{Host} (email : string) :
  email <> "" ->
  emailRegex_test email = true ->
  safeParse email_schema email
  = inr (if endsWith (toLowerCase email) "@hotmail.com"
         then Success (toLowerCase email)
         else Failure [mkIssue custom [] "O email precisa ser do hotmail"])
  /\ (forall other : string,
        reports (safeParse email_schema other) [] "O email precisa ser do hotmail"
        <-> endsWith (toLowerCase other) "@hotmail.com" = false).
Proof.
  intros Hne Hvalid. split.
  - rewrite safeParse_email. unfold email_issues, min_issues. rewrite Hvalid.
    destruct email as [|c r]; [done|]. cbn [String.length Nat.ltb Nat.leb app].
    by destruct (endsWith _ _).
  - intros other. rewrite safeParse_email, reports_issues. split.
    + intros [c Hc]. by apply email_issues_hotmail in Hc as [_ ?].
    + intros Hs. exists custom. by apply email_issues_hotmail.
Qed.

Lemma email_hotmail_rule_witness :
  "Ana@Hotmail.COM" <> ""
  /\ asciiEmail "Ana@Hotmail.COM" = true
  /\ @safeParse _ _ _ (@email_schema asciiHost) "Ana@Hotmail.COM"
     = inr (Success "ana@hotmail.com")
  /\ "Ana@GMAIL.com" <> ""
  /\ asciiEmail "Ana@GMAIL.com" = true
  /\ @safeParse _ _ _ (@email_schema asciiHost) "Ana@GMAIL.com"
     = inr (Failure [mkIssue custom [] "O email precisa ser do hotmail"]).
Proof.
  assert (N1 : "Ana@Hotmail.COM" <> "") by discriminate.
  assert (V1 : asciiEmail "Ana@Hotmail.COM" = true) by reflexivity.
  assert (N2 : "Ana@GMAIL.com" <> "") by discriminate.
  assert (V2 : asciiEmail "Ana@GMAIL.com" = true) by reflexivity.
  exact (conj N1 (conj V1 (conj (proj1 (@email_hotmail_rule asciiHost _ N1 V1))
          (conj N2 (conj V2 (proj1 (@email_hotmail_rule asciiHost _ N2 V2))))))).
Defined.

(** ** The name *)

Lemma capitalize_run `{Host} word :
  capitalize word
  = if String.eqb "" word
    then inl (TypeError "Cannot read properties of undefined (reading 'toLocaleUpperCase')")
    else inr (capitalize_spec word).
Proof. by destruct word. Qed.

Lemma mapJs_capitalize `{Host} words :
  mapJs capitalize words
  = if existsb (String.eqb "") words
    then inl (TypeError "Cannot read properties of undefined (reading 'toLocaleUpperCase')")
    else inr (capitalize_spec <$> words).
Proof.
  induction words as [|w ws IH]; [done|].
  cbn [mapJs existsb]. rewrite capitalize_run, IH.
  destruct (String.eqb "" w); [done|].
  by destruct (existsb (String.eqb "") ws).
Qed.

Lemma name_transform_run `{Host} name :
  name_transform name
  = if existsb (String.eqb "") (split " " (trim name))
    then inl (TypeError "Cannot read properties of undefined (reading 'toLocaleUpperCase')")
    else inr (normalize_name_spec name).
Proof.
  unfold name_transform, normalize_name_spec. rewrite mapJs_capitalize.
  by destruct (existsb _ _).
Qed.

Lemma name_schema_run `{Host} p name issues :
  name_schema p name issues
  = if (String.length name <? 1)%nat
    then inr (DIRTY name, issues ++ [mkIssue too_small p "O nome é obrigatório"])
    else match name_transform name with
         | inl e => inl e
         | inr v => inr (OK v, issues)
         end.
Proof.
  unfold name_schema, transform, nonempty, bind. rewrite z_string_min_run.
  unfold min_issues. destruct (String.length name <? 1)%nat; [done|].
  rewrite app_nil_r. unfold call, ret. by destruct (name_transform name).
Qed.

(** C2.  What the validator does with a name, for every host: an empty
    name fails with "O nome é obrigatório"; a name whose trimmed form has
    only non-empty space-delimited words succeeds with the name the
    specification describes (trim, split on spaces, first letter of each
    word upper-cased, joined with single spaces); a name whose trimmed form
    has an empty word (two spaces in a row, or nothing but white space)
    makes the validator throw a TypeError.  "Ana  Maria" and " " are such
    names. *)
Theorem name_extra_space_throws `{Host} :
  (forall name : string,
     safeParse name_schema name
     = if (String.length name <? 1)%nat
       then inr (Failure [mkIssue too_small [] "O nome é obrigatório"])
       else if existsb (String.eqb "") (split " " (trim name))
            then inl (TypeError
                        "Cannot read properties of undefined (reading 'toLocaleUpperCase')")
            else inr (Success (normalize_name_spec name)))
  /\ safeParse name_schema "Ana  Maria"
     = inl (TypeError "Cannot read properties of undefined (reading 'toLocaleUpperCase')")
  /\ safeParse name_schema " "
     = inl (TypeError "Cannot read properties of undefined (reading 'toLocaleUpperCase')").
Proof.
  assert (Hgen : forall name : string,
     safeParse name_schema name
     = if (String.length name <? 1)%nat
       then inr (Failure [mkIssue too_small [] "O nome é obrigatório"])
       else if existsb (String.eqb "") (split " " (trim name))
            then inl (TypeError
                        "Cannot read properties of undefined (reading 'toLocaleUpperCase')")
            else inr (Success (normalize_name_spec name))).
  { intros name. unfold safeParse. rewrite name_schema_run, name_transform_run.
    destruct (String.length name <? 1)%nat; [done|].
    by destruct (existsb _ _). }
  split; [exact Hgen|]. split; rewrite Hgen; reflexivity.
Qed.

(** ** The whole form *)

Lemma agrees_cases {D O} (r : ParseReturn D O) v issues :
  agrees r v issues ->
  (issues = [] /\ r = OK v) \/ (issues <> [] /\ isValid r = false).
Proof. unfold agrees. destruct issues; [by left|by right]. Qed.

Lemma match_issues_agrees {D O} (issues : list ZodIssue) (v : O) (d : D) :
  agrees (match issues with [] => OK v | _ => DIRTY d end) v issues.
Proof. by destruct issues. Qed.

Lemma name_schema_safe `{Host} p name issues :
  name_safe name = true ->
  exists r,
    name_schema p name issues
    = inr (r, issues ++ min_issues p 1 "O nome é obrigatório" name)
    /\ agrees r (normalize_name_spec name) (min_issues p 1 "O nome é obrigatório" name).
Proof.
  unfold name_safe, min_issues. intros Hs.
  rewrite name_schema_run, name_transform_run.
  destruct (String.length name <? 1)%nat; simpl in *.
  - by eexists.
  - apply negb_true_iff in Hs. rewrite Hs, app_nil_r. by eexists.
Qed.

Lemma password_schema_run `{Host} p password issues :
  exists r,
    password_schema p password issues
    = inr (r, issues ++ min_issues p 6 "A senha precisa de no mínimo 6 caracteres" password)
    /\ agrees r password
         (min_issues p 6 "A senha precisa de no mínimo 6 caracteres" password).
Proof.
  unfold password_schema. rewrite z_string_min_run. eexists. split; [done|].
  unfold min_issues. by destruct (String.length password <? 6)%nat.
Qed.

Lemma avatar_schema_agrees p f rest issues :
  exists r,
    AvatarApp.avatar_schema p (Some (f :: rest)) issues
    = inr (r, issues ++ avatar_issues p f)
    /\ agrees r (Some f) (avatar_issues p f).
Proof. rewrite avatar_schema_file. eexists. split; [done|apply match_issues_agrees]. Qed.

Lemma email_schema_agrees `{Host} p email issues :
  exists r,
    email_schema p email issues = inr (r, issues ++ email_issues p email)
    /\ agrees r (toLowerCase email) (email_issues p email).
Proof. rewrite email_schema_run. eexists. split; [done|apply match_issues_agrees]. Qed.

Lemma techs_schema_agrees `{Host} p techs issues :
  exists r,
    techs_schema p techs issues = inr (r, issues ++ techs_issues p techs)
    /\ agrees r (techOf <$> techs) (techs_issues p techs).
Proof. rewrite techs_schema_run. eexists. split; [done|apply techs_agrees]. Qed.

(** When the avatar has a file and the name has no empty word, the
    validator returns: the normalized object when no field has an issue,
    and otherwise the issues of all the fields, each field's after the
    previous field's. *)
Lemma form_returns `{Host} f rest name email password techs :
  name_safe name = true ->
  safeParse AvatarApp.createUserFormSchema
    (AvatarApp.mkFieldValues (Some (f :: rest)) name email password techs)
  = inr (match form_issues f name email password techs with
         | [] => Success (AvatarApp.mkData (Some f) (normalize_name_spec name)
                            (toLowerCase email) password (techOf <$> techs))
         | _ => Failure (form_issues f name email password techs)
         end).
Proof.
  intros Hsafe. unfold safeParse, AvatarApp.createUserFormSchema, bind, form_issues.
  cbn [app AvatarApp.v_avatar AvatarApp.v_name AvatarApp.v_email AvatarApp.v_password
       AvatarApp.v_techs].
  destruct (avatar_schema_agrees [Key "avatar"] f rest []) as (ra & -> & Ha).
  cbn [app].
  destruct (name_schema_safe [Key "name"] name (avatar_issues [Key "avatar"] f) Hsafe)
    as (rn & -> & Hn).
  destruct (email_schema_agrees [Key "email"] email
              (avatar_issues [Key "avatar"] f
               ++ min_issues [Key "name"] 1 "O nome é obrigatório" name))
    as (re & -> & He).
  destruct (password_schema_run [Key "password"] password
              ((avatar_issues [Key "avatar"] f
                ++ min_issues [Key "name"] 1 "O nome é obrigatório" name)
               ++ email_issues [Key "email"] email)) as (rp & -> & Hp).
  destruct (techs_schema_agrees [Key "techs"] techs
              (((avatar_issues [Key "avatar"] f
                 ++ min_issues [Key "name"] 1 "O nome é obrigatório" name)
                ++ email_issues [Key "email"] email)
               ++ min_issues [Key "password"] 6
                    "A senha precisa de no mínimo 6 caracteres" password))
    as (rt & -> & Ht).
  unfold ret. rewrite <- !(app_assoc (A:=ZodIssue)).
  destruct (agrees_cases _ _ _ Ha) as [[Ha1 Ha2]|[Ha1 Ha2]];
    [|destruct (avatar_issues _ f) as [|i l]; [done|]; not_valid ra].
  destruct (agrees_cases _ _ _ Hn) as [[Hn1 Hn2]|[Hn1 Hn2]];
    [|rewrite Ha1, Ha2; cbn [app];
      destruct (min_issues _ 1 _ name); [done|]; not_valid rn].
  destruct (agrees_cases _ _ _ He) as [[He1 He2]|[He1 He2]];
    [|rewrite Ha1, Ha2, Hn1, Hn2; cbn [app];
      destruct (email_issues _ email) as [|i l]; [done|]; not_valid re].
  destruct (agrees_cases _ _ _ Hp) as [[Hp1 Hp2]|[Hp1 Hp2]];
    [|rewrite Ha1, Ha2, Hn1, Hn2, He1, He2; cbn [app];
      destruct (min_issues _ 6 _ password); [done|]; not_valid rp].
  rewrite Ha1, Ha2, Hn1, Hn2, He1, He2, Hp1, Hp2; cbn [app].
  destruct (agrees_cases _ _ _ Ht) as [[Ht1 Ht2]|[Ht1 Ht2]].
  - by rewrite Ht1, Ht2.
  - destruct (techs_issues _ techs); [done|]. not_valid rt.
Qed.

(** Every issue a field has is among the issues of the form. *)
Lemma form_reports_every_field `{Host} f rest name email password techs i :
  name_safe name = true ->
  i ∈ form_issues f name email password techs ->
  exists issues,
    safeParse AvatarApp.createUserFormSchema
      (AvatarApp.mkFieldValues (Some (f :: rest)) name email password techs)
    = inr (Failure issues)
    /\ i ∈ issues.
Proof.
  intros Hsafe Hin. rewrite (form_returns _ _ _ _ _ _ Hsafe).
  destruct (form_issues f name email password techs) as [|j l] eqn:Hi.
  - by apply elem_of_nil in Hin.
  - by eexists.
Qed.

(** C1.  The validator throws on inputs the user can correct.  With an
    empty file list (no avatar chosen) it throws a TypeError whatever the
    other fields hold; with a name that has two spaces in a row it throws a
    TypeError whatever the other fields hold, in the form with the avatar
    (a file being chosen) and in the basic form. *)
Theorem validator_throws `{Host} (f : File.t) (rest : FileList)
    (name email password : string) (techs : list RawTech) :
  safeParse AvatarApp.createUserFormSchema
    (AvatarApp.mkFieldValues (Some []) name email password techs)
  = inl (TypeError "Cannot read properties of null (reading 'size')")
  /\ safeParse AvatarApp.createUserFormSchema
       (AvatarApp.mkFieldValues (Some (f :: rest)) "Ana  Maria" email password techs)
     = inl (TypeError "Cannot read properties of undefined (reading 'toLocaleUpperCase')")
  /\ safeParse App.createUserFormSchema
       (App.mkFieldValues "Ana  Maria" email password techs)
     = inl (TypeError "Cannot read properties of undefined (reading 'toLocaleUpperCase')").
Proof.
  split; [reflexivity|]. split.
  - unfold safeParse, AvatarApp.createUserFormSchema, bind.
    cbn [app AvatarApp.v_avatar AvatarApp.v_name].
    destruct (avatar_schema_agrees [Key "avatar"] f rest []) as (ra & -> & _).
    by rewrite name_schema_run, name_transform_run.
  - unfold safeParse, App.createUserFormSchema, bind.
    cbn [app App.v_name].
    by rewrite name_schema_run, name_transform_run.
Qed.

(** C8.  With no avatar chosen the resolver throws and there is no [errors]
    object at all, whatever the other fields hold: the messages of an empty
    name, an empty e-mail, a short password and an empty list of techs are
    not reported. *)
Theorem missing_avatar_hides_field_errors `{Host}
    (name email password : string) (techs : list RawTech) :
  zodResolver AvatarApp.createUserFormSchema
    (AvatarApp.mkFieldValues (Some []) name email password techs)
  = inl (TypeError "Cannot read properties of null (reading 'size')")
  /\ zodResolver AvatarApp.createUserFormSchema
       (AvatarApp.mkFieldValues (Some []) "" "" "" [])
     = inl (TypeError "Cannot read properties of null (reading 'size')").
Proof. split; reflexivity. Qed.

(** ** The submit life cycle *)

Lemma handleSubmit_tracks `{Host} s : flag_tracks_upload (AvatarApp.handleSubmit s).
Proof.
  unfold flag_tracks_upload, AvatarApp.handleSubmit.
  destruct (zodResolver _ _) as [e|r]; [done|].
  destruct (values r) as [data|]; simpl; [|by intros [? ?]].
  by destruct (AvatarApp.createUser data).
Qed.

Lemma step_tracks `{Host} s e :
  flag_tracks_upload s -> flag_tracks_upload (AvatarApp.step s e).
Proof.
  intros Hs. destruct e as [v| | |rejected]; simpl.
  - exact Hs.
  - exact Hs.
  - destruct (AvatarApp.isSubmitting s) eqn:Hf; [exact Hs|apply handleSubmit_tracks].
  - unfold AvatarApp.resume, flag_tracks_upload.
    destruct (AvatarApp.uploading s) eqn:Hu; [|by rewrite Hu].
    destruct rejected; simpl; by intros [? ?].
Qed.

Lemma run_app `{Host} s es e :
  AvatarApp.run s (es ++ [e]) = AvatarApp.step (AvatarApp.run s es) e.
Proof. unfold AvatarApp.run. by rewrite fold_left_app. Qed.

Lemma run_tracks `{Host} events :
  flag_tracks_upload (AvatarApp.run AvatarApp.initialState events).
Proof.
  induction events as [|e es IH] using rev_ind; [by intros [? ?]|].
  rewrite run_app. by apply step_tracks.
Qed.

Lemma settles_app es e :
  settles (es ++ [e])
  = (settles es + match e with AvatarApp.UploadSettled _ => 1 | _ => 0 end)%nat.
Proof.
  induction es as [|x xs IH]; simpl.
  - destruct e; simpl; lia.
  - destruct x; simpl; rewrite IH; lia.
Qed.

Lemma handleSubmit_stored `{Host} s :
  (List.length (AvatarApp.stored (AvatarApp.handleSubmit s))
   <= List.length (AvatarApp.stored s)
      + if AvatarApp.isSubmitting (AvatarApp.handleSubmit s) then 1 else 0)%nat.
Proof.
  unfold AvatarApp.handleSubmit.
  destruct (zodResolver _ _) as [e|r]; simpl; [lia|].
  destruct (values r) as [data|]; simpl; [|lia].
  destruct (AvatarApp.createUser data); simpl; [lia|].
  rewrite length_app. simpl. lia.
Qed.

(** Uploads are started one at a time: the calls made to the storage never
    outnumber the settled ones by more than the one in flight. *)
Lemma run_stored `{Host} events :
  let s := AvatarApp.run AvatarApp.initialState events in
  (List.length (AvatarApp.stored s)
   <= settles events + if AvatarApp.isSubmitting s then 1 else 0)%nat.
Proof.
  induction events as [|e es IH] using rev_ind; [simpl; lia|].
  cbn zeta in *. rewrite run_app, settles_app.
  pose proof (run_tracks es) as Ht. unfold flag_tracks_upload in Ht.
  set (s := AvatarApp.run AvatarApp.initialState es) in *.
  destruct e as [v| | |rejected]; simpl.
  - lia.
  - lia.
  - destruct (AvatarApp.isSubmitting s) eqn:Hf; [rewrite Hf; lia|].
    pose proof (handleSubmit_stored s) as Hh.
    destruct (AvatarApp.isSubmitting (AvatarApp.handleSubmit s)); lia.
  - unfold AvatarApp.resume.
    destruct (AvatarApp.uploading s) as [data|] eqn:Hu.
    + rewrite Ht in IH by done. destruct rejected; simpl.
      * rewrite Ht by done. lia.
      * lia.
    + destruct (AvatarApp.isSubmitting s); lia.
Qed.

(** A successful validation: the avatar has a file, the name has no empty
    word, no field has an issue, and the data is the normalized object. *)
Lemma success_normalized `{Host} v data :
  safeParse AvatarApp.createUserFormSchema v = inr (Success data) ->
  exists f rest,
    AvatarApp.v_avatar v = Some (f :: rest)
    /\ name_safe (AvatarApp.v_name v) = true
    /\ form_issues f (AvatarApp.v_name v) (AvatarApp.v_email v)
         (AvatarApp.v_password v) (AvatarApp.v_techs v) = []
    /\ data = AvatarApp.mkData (Some f) (normalize_name_spec (AvatarApp.v_name v))
                (toLowerCase (AvatarApp.v_email v)) (AvatarApp.v_password v)
                (techOf <$> AvatarApp.v_techs v).
Proof.
  destruct v as [[[|f rest]|] name email password techs];
    cbn [AvatarApp.v_avatar AvatarApp.v_name AvatarApp.v_email
         AvatarApp.v_password AvatarApp.v_techs].
  - intros Hs. exfalso. revert Hs.
    unfold safeParse, AvatarApp.createUserFormSchema, bind. simpl. discriminate.
  - destruct (name_safe name) eqn:Hsafe.
    + rewrite (form_returns _ _ _ _ _ _ Hsafe).
      destruct (form_issues f name email password techs) eqn:Hi; [|discriminate].
      intros [= <-]. by exists f, rest.
    + intros Hs. exfalso. revert Hs.
      unfold safeParse, AvatarApp.createUserFormSchema, bind.
      cbn [app AvatarApp.v_avatar AvatarApp.v_name].
      destruct (avatar_schema_agrees [Key "avatar"] f rest []) as (ra & -> & _).
      rewrite name_schema_run, name_transform_run.
      unfold name_safe in Hsafe. apply orb_false_iff in Hsafe as [-> Hw].
      apply negb_false_iff in Hw. by rewrite Hw.
  - intros Hs. exfalso. revert Hs.
    unfold safeParse, AvatarApp.createUserFormSchema, bind.
    cbn [app AvatarApp.v_avatar AvatarApp.v_name AvatarApp.v_email
         AvatarApp.v_password AvatarApp.v_techs].
    rewrite avatar_schema_not_FileList.
    destruct (name_schema _ _ _) as [e|[rn i1]]; [done|].
    destruct (email_schema _ _ _) as [e|[re i2]]; [done|].
    destruct (password_schema _ _ _) as [e|[rp i3]]; [done|].
    destruct (techs_schema _ _ _) as [e|[rt i4]]; [done|].
    unfold ret. simpl. discriminate.
Qed.

Lemma resolver_values `{Host} v r data :
  zodResolver AvatarApp.createUserFormSchema v = inr r ->
  values r = Some data ->
  safeParse AvatarApp.createUserFormSchema v = inr (Success data).
Proof.
  unfold zodResolver.
  destruct (safeParse _ v) as [e|[d|issues]]; [done| |].
  - intros [= <-]. simpl. by intros [= ->].
  - intros [= <-]. done.
Qed.

Lemma step_stuck `{Host} s e :
  stuck s ->
  stuck (AvatarApp.step s e)
  /\ AvatarApp.stored (AvatarApp.step s e) = AvatarApp.stored s
  /\ AvatarApp.output (AvatarApp.step s e) = AvatarApp.output s.
Proof.
  intros [Hflag Hup]. destruct e as [v| | |rejected]; simpl.
  - by repeat split.
  - by repeat split.
  - rewrite Hflag. by repeat split.
  - unfold AvatarApp.resume. rewrite Hup. by repeat split.
Qed.

Lemma run_stuck `{Host} events : forall s,
  stuck s ->
  stuck (AvatarApp.run s events)
  /\ AvatarApp.stored (AvatarApp.run s events) = AvatarApp.stored s
  /\ AvatarApp.output (AvatarApp.run s events) = AvatarApp.output s.
Proof.
  induction events as [|e es IH]; intros s Hs; [done|].
  change (AvatarApp.run s (e :: es)) with (AvatarApp.run (AvatarApp.step s e) es).
  destruct (step_stuck s e Hs) as (Hs' & Hst & Hout).
  destruct (IH _ Hs') as (Hs'' & Hst' & Hout').
  split; [exact Hs''|]. split; congruence.
Qed.

(** C9.  The life cycle of a submit, in every state the form can reach.

    What the claim says and the page does: a submit that passes validation
    while the form is not submitting puts the form in the Submitting state,
    with [createUser] waiting for the one upload it started; while the flag
    is set a further submit changes nothing, and the flag is set as long as
    an upload is pending, so no second submit starts; the uploads started
    never outnumber the settled ones by more than one.  The block clears
    when the submit ends without an exception: at once when the validation
    returns field errors, and, with the output set, when the upload
    resolves.

    Where the page departs from the claim: when the submit ends with an
    exception (the validator throws, or the awaited upload rejects) nothing
    is pending any more but the flag is still set, and from such a state
    on, whatever happens on the page, the flag stays set and no upload and
    no output follow: the block never clears. *)
Theorem submit_blocked_while_pending `{Host} (events : list AvatarApp.Event) :
  let s := AvatarApp.run AvatarApp.initialState events in
  (AvatarApp.isSubmitting s = false ->
   (forall data,
      safeParse AvatarApp.createUserFormSchema (AvatarApp.fieldValues s)
      = inr (Success data) ->
      exists f,
        AvatarApp.avatar data = Some f
        /\ AvatarApp.isSubmitting (AvatarApp.step s AvatarApp.Submit) = true
        /\ AvatarApp.uploading (AvatarApp.step s AvatarApp.Submit) = Some data
        /\ AvatarApp.stored (AvatarApp.step s AvatarApp.Submit)
           = AvatarApp.stored s ++ [(File.name f, f)])
   /\ (forall issues,
         safeParse AvatarApp.createUserFormSchema (AvatarApp.fieldValues s)
         = inr (Failure issues) ->
         AvatarApp.step s AvatarApp.Submit
         = AvatarApp.mkState (AvatarApp.fieldValues s) false None
             (AvatarApp.stored s) (AvatarApp.output s))
   /\ (forall e,
         safeParse AvatarApp.createUserFormSchema (AvatarApp.fieldValues s) = inl e ->
         AvatarApp.step s AvatarApp.Submit
         = AvatarApp.mkState (AvatarApp.fieldValues s) true None
             (AvatarApp.stored s) (AvatarApp.output s)))
  /\ (AvatarApp.isSubmitting s = true -> AvatarApp.step s AvatarApp.Submit = s)
  /\ (forall data,
        AvatarApp.uploading s = Some data ->
        AvatarApp.isSubmitting s = true
        /\ AvatarApp.step s (AvatarApp.UploadSettled false)
           = AvatarApp.mkState (AvatarApp.fieldValues s) false None
               (AvatarApp.stored s) (Some data)
        /\ AvatarApp.step s (AvatarApp.UploadSettled true)
           = AvatarApp.mkState (AvatarApp.fieldValues s) true None
               (AvatarApp.stored s) (AvatarApp.output s))
  /\ (AvatarApp.isSubmitting s = true ->
      AvatarApp.uploading s = None ->
      forall more : list AvatarApp.Event,
        AvatarApp.isSubmitting (AvatarApp.run s more) = true
        /\ AvatarApp.uploading (AvatarApp.run s more) = None
        /\ AvatarApp.stored (AvatarApp.run s more) = AvatarApp.stored s
        /\ AvatarApp.output (AvatarApp.run s more) = AvatarApp.output s)
  /\ (List.length (AvatarApp.stored s) <= settles events + 1)%nat.
Proof.
  intros s. split; [|split; [|split; [|split]]].
  - intros Hidle. split; [|split].
    + intros data Hok.
      destruct (success_normalized _ _ Hok) as (f & rest & _ & _ & _ & ->).
      exists f. split; [done|].
      simpl. rewrite Hidle. unfold AvatarApp.handleSubmit, zodResolver. rewrite Hok.
      simpl. done.
    + intros issues Hfail. simpl. rewrite Hidle.
      unfold AvatarApp.handleSubmit, zodResolver. by rewrite Hfail.
    + intros e Hthrow. simpl. rewrite Hidle.
      unfold AvatarApp.handleSubmit, zodResolver. by rewrite Hthrow.
  - intros Hbusy. simpl. by rewrite Hbusy.
  - intros data Hdata. pose proof (run_tracks events) as Ht.
    unfold flag_tracks_upload in Ht. fold s in Ht.
    assert (Hbusy : AvatarApp.isSubmitting s = true) by (apply Ht; by exists data).
    split; [exact Hbusy|]. simpl. unfold AvatarApp.resume. rewrite Hdata, Hbusy.
    by split.
  - intros Hbusy Hnone more.
    destruct (run_stuck more s (conj Hbusy Hnone)) as ([Hf Hu] & Hst & Hout).
    by repeat split.
  - pose proof (run_stored events) as Hs. cbn zeta in Hs. fold s in Hs.
    destruct (AvatarApp.isSubmitting s); lia.
Qed.

(** On the untouched form: no file is chosen, the validator throws, and the
    submit leaves the flag set; filling the form in and submitting again
    starts no upload.  On a form filled in: the submit starts the upload and
    a second submit changes nothing; the flag is cleared when the upload
    resolves and stays set when it rejects. *)
Lemma submit_blocked_while_pending_witness :
  @safeParse _ _ _ (@AvatarApp.createUserFormSchema asciiHost) AvatarApp.initialValues
  = inl (TypeError "Cannot read properties of null (reading 'size')")
  /\ @AvatarApp.run asciiHost AvatarApp.initialState [AvatarApp.Submit]
     = AvatarApp.mkState AvatarApp.initialValues true None [] None
  /\ AvatarApp.isSubmitting
       (@AvatarApp.run asciiHost AvatarApp.initialState
          [AvatarApp.Submit; AvatarApp.Change sampleValues; AvatarApp.Submit]) = true
  /\ AvatarApp.stored
       (@AvatarApp.run asciiHost AvatarApp.initialState
          [AvatarApp.Submit; AvatarApp.Change sampleValues; AvatarApp.Submit]) = []
  /\ AvatarApp.uploading
       (@AvatarApp.run asciiHost AvatarApp.initialState
          [AvatarApp.Change sampleValues; AvatarApp.Submit]) = Some sampleData
  /\ @AvatarApp.step asciiHost
       (@AvatarApp.run asciiHost AvatarApp.initialState
          [AvatarApp.Change sampleValues; AvatarApp.Submit]) AvatarApp.Submit
     = @AvatarApp.run asciiHost AvatarApp.initialState
         [AvatarApp.Change sampleValues; AvatarApp.Submit]
  /\ AvatarApp.isSubmitting
       (@AvatarApp.step asciiHost
          (@AvatarApp.run asciiHost AvatarApp.initialState
             [AvatarApp.Change sampleValues; AvatarApp.Submit])
          (AvatarApp.UploadSettled false)) = false
  /\ AvatarApp.isSubmitting
       (@AvatarApp.step asciiHost
          (@AvatarApp.run asciiHost AvatarApp.initialState
             [AvatarApp.Change sampleValues; AvatarApp.Submit])
          (AvatarApp.UploadSettled true)) = true.
Proof.
  assert (Hthrow : @safeParse _ _ _ (@AvatarApp.createUserFormSchema asciiHost)
                     AvatarApp.initialValues
                   = inl (TypeError "Cannot read properties of null (reading 'size')"))
    by (vm_compute; reflexivity).
  assert (Hup : AvatarApp.uploading
            (@AvatarApp.run asciiHost AvatarApp.initialState
               [AvatarApp.Change sampleValues; AvatarApp.Submit]) = Some sampleData)
    by (vm_compute; reflexivity).
  destruct (@submit_blocked_while_pending asciiHost []) as (Hidle & _).
  destruct (Hidle eq_refl) as (_ & _ & Hstep).
  destruct (@submit_blocked_while_pending asciiHost [AvatarApp.Submit])
    as (_ & _ & _ & Hstuck & _).
  destruct (@submit_blocked_while_pending asciiHost
              [AvatarApp.Change sampleValues; AvatarApp.Submit])
    as (_ & Hblocked & Hpending & _).
  destruct (Hpending _ Hup) as (Hbusy & Hresolved & Hrejected).
  split; [exact Hthrow|]. split; [exact (Hstep _ Hthrow)|].
  destruct (Hstuck eq_refl eq_refl [AvatarApp.Change sampleValues; AvatarApp.Submit])
    as (Hf & _ & Hst & _).
  split; [exact Hf|]. split; [exact Hst|].
  split; [exact Hup|]. split; [exact (Hblocked Hbusy)|].
  split; [rewrite Hresolved; reflexivity|rewrite Hrejected; reflexivity].
Defined.

(** ** The resolver *)

(** An entry of the [errors] object is never overwritten. *)
Lemma parseErrorSchema_keeps issues (errs : gmap string FieldError) k e :
  errs !! k = Some e -> parseErrorSchema issues errs !! k = Some e.
Proof.
  revert errs. induction issues as [|i rest IH]; intros errs Hk; simpl; [done|].
  destruct (errs !! pathString (path i)) eqn:Hp; [by apply IH|].
  apply IH. rewrite lookup_insert_ne; [done|]. intros <-. congruence.
Qed.

(** The first issue of a failure is the message shown for its path. *)
Lemma parseErrorSchema_first i rest :
  parseErrorSchema (i :: rest) ∅ !! pathString (path i)
  = Some (mkFieldError (message i) (code i)).
Proof.
  simpl. rewrite lookup_empty. apply parseErrorSchema_keeps.
  apply lookup_insert_eq.
Qed.

(** ** Framing of the schemas *)

Lemma framed_name_schema `{Host} p name : framed (name_schema p name).
Proof. apply framed_transform, framed_stringChecks. Qed.

Lemma framed_email_schema `{Host} p email : framed (email_schema p email).
Proof. apply framed_refine, framed_stringChecks. Qed.

Lemma framed_password_schema `{Host} p password : framed (password_schema p password).
Proof. apply framed_stringChecks. Qed.

Lemma framed_tech_schema `{Host} p t : framed (tech_schema p t).
Proof.
  unfold tech_schema. apply framed_bind; [apply framed_stringChecks|].
  intros rt. apply framed_bind; [apply framed_z_coerce_number|].
  intros rk. apply framed_ret.
Qed.

Lemma framed_techs_schema `{Host} p techs : framed (techs_schema p techs).
Proof. apply framed_refine, framed_z_array_min. intros q x. apply framed_tech_schema. Qed.

Lemma framed_avatar_schema p files : framed (AvatarApp.avatar_schema p files).
Proof.
  apply framed_transform, framed_refine, framed_refine, framed_refine.
  unfold AvatarApp.z_instanceof_FileList. destruct files; auto with framed.
Qed.

(** The validator only appends to the issues found so far. *)
Lemma framed_createUserFormSchema `{Host} p v :
  framed (AvatarApp.createUserFormSchema p v).
Proof.
  unfold AvatarApp.createUserFormSchema.
  apply framed_bind; [apply framed_avatar_schema|]. intros ra.
  apply framed_bind; [apply framed_name_schema|]. intros rn.
  apply framed_bind; [apply framed_email_schema|]. intros re.
  apply framed_bind; [apply framed_password_schema|]. intros rp.
  apply framed_bind; [apply framed_techs_schema|]. intros rt.
  apply framed_ret.
Qed.

(** ** The [errors] object of the form *)

Lemma parseErrorSchema_skip before i rest (errs : gmap string FieldError) :
  errs !! pathString (path i) = None ->
  Forall (fun j => pathString (path j) <> pathString (path i)) before ->
  parseErrorSchema (before ++ i :: rest) errs !! pathString (path i)
  = Some (mkFieldError (message i) (code i)).
Proof.
  revert errs. induction before as [|j js IH]; intros errs Hnone Hall.
  - simpl. rewrite Hnone. apply parseErrorSchema_keeps, lookup_insert_eq.
  - apply Forall_cons in Hall as [Hj Hjs]. simpl.
    destruct (errs !! pathString (path j)); [by apply IH|].
    apply IH; [|done]. by rewrite lookup_insert_ne.
Qed.

Lemma min_issues_path p n msg data : Forall (fun i => path i = p) (min_issues p n msg data).
Proof. unfold min_issues. destruct (_ <? _)%nat; repeat constructor. Qed.

Lemma avatar_issues_path p f : Forall (fun i => path i = p) (avatar_issues p f).
Proof.
  unfold avatar_issues. apply Forall_app. split.
  - destruct (_ <=? _)%N; repeat constructor.
  - destruct (includes _ _); repeat constructor.
Qed.

Lemma email_issues_path `{Host} p email : Forall (fun i => path i = p) (email_issues p email).
Proof.
  unfold email_issues. apply Forall_app. split; [apply min_issues_path|].
  apply Forall_app. split.
  - destruct (emailRegex_test email); repeat constructor.
  - destruct (endsWith _ _); repeat constructor.
Qed.

(** With a file chosen and a name without empty word, a list of fewer than
    two techs puts "Insira pelo menos 2 tecnologias" under the key [techs]
    of the [errors] object, whatever else the form reports. *)
Lemma errors_techs_min_count `{Host} f rest name email password techs :
  name_safe name = true ->
  (List.length techs < 2)%nat ->
  exists r,
    zodResolver AvatarApp.createUserFormSchema
      (AvatarApp.mkFieldValues (Some (f :: rest)) name email password techs) = inr r
    /\ values r = None
    /\ errors r !! "techs"
       = Some (mkFieldError "Insira pelo menos 2 tecnologias" too_small).
Proof.
  intros Hsafe Hlen. unfold zodResolver. rewrite (form_returns _ _ _ _ _ _ Hsafe).
  unfold form_issues, techs_issues. apply Nat.ltb_lt in Hlen. rewrite Hlen.
  cbn [app]. rewrite !(app_assoc (A:=ZodIssue)).
  set (before := ((avatar_issues _ f ++ min_issues _ 1 _ name)
                  ++ email_issues _ email) ++ min_issues _ 6 _ password).
  set (i := mkIssue too_small [Key "techs"] msg_min_techs).
  set (after := items_issues _ 0 techs ++ _).
  assert (Hbefore : Forall (fun j => pathString (path j) <> pathString (path i)) before).
  { unfold before. apply Forall_app_2; [apply Forall_app_2; [apply Forall_app_2|]|].
    - eapply Forall_impl; [apply avatar_issues_path|]. intros j ->. discriminate.
    - eapply Forall_impl; [apply min_issues_path|]. intros j ->. discriminate.
    - eapply Forall_impl; [apply email_issues_path|]. intros j ->. discriminate.
    - eapply Forall_impl; [apply min_issues_path|]. intros j ->. discriminate. }
  destruct (before ++ i :: after) as [|x l] eqn:Hl.
  { symmetry in Hl. by apply app_cons_not_nil in Hl. }
  eexists. split; [reflexivity|]. split; [reflexivity|].
  cbn [errors]. rewrite <- Hl.
  apply (parseErrorSchema_skip before i after ∅); [apply lookup_empty|exact Hbefore].
Qed.

(** The rest of a word keeps its case: only the first letter is changed. *)
Example name_mixed_case :
  @safeParse _ _ _ (@name_schema asciiHost) " jOHN   " = inr (Success "JOHN")
  /\ @safeParse _ _ _ (@name_schema asciiHost) "ana maria" = inr (Success "Ana Maria")
  /\ @safeParse _ _ _ (@name_schema asciiHost) "" 
     = inr (Failure [mkIssue too_small [] "O nome é obrigatório"]).
Proof. vm_compute. repeat split; reflexivity. Qed.

(** * Further properties of the form *)

(** ** The avatar field *)

(** X1.  The message of the first rule of the avatar, "A imagem de perfil é
    obrigatória", is never reported: a value that is not a file list aborts
    before the rule, a file list with a file passes it, and on the empty
    file list the rule after it throws before any result exists. *)
Theorem avatar_required_never_reported (v : option FileList) :
  ~ reports (safeParse AvatarApp.avatar_schema v) [] "A imagem de perfil é obrigatória".
Proof.
  destruct v as [[|f rest]|].
  - intros (issues & Hr & _). discriminate Hr.
  - rewrite safeParse_avatar_file, reports_issues. intros [c Hin].
    unfold avatar_issues in Hin. apply elem_of_app in Hin as [Hin|Hin].
    + destruct (_ <=? _)%N; [by apply elem_of_nil in Hin|].
      apply list_elem_of_singleton in Hin. discriminate Hin.
    + destruct (includes _ _); [by apply elem_of_nil in Hin|].
      apply list_elem_of_singleton in Hin. discriminate Hin.
  - intros (issues & Hr & c & Hin).
    injection Hr as <-. apply list_elem_of_singleton in Hin. discriminate Hin.
Qed.

(** X2.  Of a file list only the first file counts: the files after it
    change neither the verdict nor the issues, and a successful validation
    returns that first file. *)
Theorem avatar_first_file_only (f : File.t) (rest : FileList) :
  safeParse AvatarApp.avatar_schema (Some (f :: rest))
  = safeParse AvatarApp.avatar_schema (Some [f])
  /\ (forall d, safeParse AvatarApp.avatar_schema (Some (f :: rest)) = inr (Success d) ->
                d = Some f).
Proof.
  rewrite !safeParse_avatar_file. split; [done|].
  intros d. destruct (avatar_issues [] f); [|discriminate]. by intros [= <-].
Qed.

(** ** A tech entry *)

(** X3.  A tech entry never makes the validator throw.  It is accepted
    exactly when its title is not empty and its coerced knowledge lies in
    the range 1 to 100, and the accepted entry keeps the title as typed
    (white space included) with the knowledge as a number. *)
Theorem tech_entry_accepted_iff `{Host} (t : RawTech) (v : Tech) :
  (exists r, safeParse tech_schema t = inr r)
  /\ (safeParse tech_schema t = inr (Success v)
      <-> raw_title t <> "" /\ inRange (Number (raw_knowledge t)) = true
          /\ v = mkTech (raw_title t) (Number (raw_knowledge t))).
Proof.
  rewrite safeParse_tech. split; [by eexists|].
  unfold tech_result, tech_aborted, tech_clean, techOf.
  destruct (isNaN (Number (raw_knowledge t))) eqn:Hn.
  { split; [done|]. intros (_ & Hr & _). by destruct (Number (raw_knowledge t)). }
  destruct (raw_title t) as [|c r] eqn:Ht; cbn [String.length Nat.ltb Nat.leb negb andb].
  - split; [done|]. by intros (? & _).
  - destruct (inRange (Number (raw_knowledge t))).
    + split; [by intros [= <-]|by intros (_ & _ & ->)].
    + split; [done|]. by intros (_ & ? & _).
Qed.

(** ** The list of techs *)

Lemma existsb_false_Forall {A} (f : A -> bool) (l : list A) :
  existsb f l = false <-> Forall (fun x => f x = false) l.
Proof.
  induction l as [|x xs IH]; simpl.
  - split; [constructor|done].
  - rewrite orb_false_iff, IH, Forall_cons. done.
Qed.

(** X5.  The message "Você está aprendendo" is reported exactly when every
    knowledge of the list coerces to a number and none of them is above 50.
    One knowledge that is not a number aborts the list before the rule, and
    one knowledge above 50 satisfies it even when it is out of range. *)
Theorem learning_message_iff `{Host} (techs : list RawTech) :
  reports (safeParse techs_schema techs) [] "Você está aprendendo"
  <-> Forall (fun t => Number (raw_knowledge t) <> NaN
                       /\ num_gtb (Number (raw_knowledge t)) (num_of_Z 50) = false) techs.
Proof.
  change "Você está aprendendo" with msg_learning.
  rewrite reports_learning_iff. unfold someAbove50.
  rewrite !existsb_false_Forall, Forall_fmap.
  rewrite <- Forall_and. apply Forall_iff. intros t.
  unfold tech_aborted, techOf. simpl.
  split; (intros [Ha Hb]; split; [|done]).
  - intros Hn. by rewrite Hn in Ha.
  - by destruct (Number (raw_knowledge t)).
Qed.

Lemma safeParse_techs_issues `{Host} techs :
  safeParse techs_schema techs
  = inr (match techs_issues [] techs with
         | [] => Success (techOf <$> techs)
         | _ => Failure (techs_issues [] techs)
         end).
Proof.
  rewrite safeParse_techs. pose proof (techs_agrees [] techs) as Ha.
  unfold agrees in Ha. destruct (techs_issues [] techs); [by rewrite Ha|].
  by destruct (techs_result techs).
Qed.

Lemma items_issues_elem i0 techs x :
  x ∈ items_issues [] i0 techs
  <-> exists k t, techs !! k = Some t /\ x ∈ tech_issues [Index (i0 + k)] t.
Proof.
  revert i0. induction techs as [|t ts IH]; intros i0; simpl.
  - split; [by intros ?%elem_of_nil|]. by intros (k & t & ? & _).
  - rewrite elem_of_app, IH. split.
    + intros [Hin|(k & t' & Hk & Hin)].
      * exists 0, t. rewrite Nat.add_0_r. done.
      * exists (S k), t'. rewrite Nat.add_succ_r. done.
    + intros ([|k] & t' & Hk & Hin).
      * left. rewrite Nat.add_0_r in Hin. simpl in Hk. by injection Hk as ->.
      * right. exists k, t'. rewrite Nat.add_succ_r in Hin. done.
Qed.

Lemma tech_issues_path p t x :
  x ∈ tech_issues p t ->
  path x = p ++ [Key "title"] \/ path x = p ++ [Key "knowledge"].
Proof.
  unfold tech_issues, min_issues, knowledge_issues, knowledge_range_issues.
  intros Hin. apply elem_of_app in Hin as [Hin|Hin].
  - destruct (_ <? _)%nat; [|by apply elem_of_nil in Hin].
    apply list_elem_of_singleton in Hin as ->. by left.
  - right. destruct (isNaN _).
    + by apply list_elem_of_singleton in Hin as ->.
    + apply elem_of_app in Hin as [Hin|Hin].
      * destruct (num_ltb _ _); [|by apply elem_of_nil in Hin].
        by apply list_elem_of_singleton in Hin as ->.
      * destruct (num_gtb _ _); [|by apply elem_of_nil in Hin].
        by apply list_elem_of_singleton in Hin as ->.
Qed.

Lemma techs_issues_row techs j key msg :
  (exists c', mkIssue c' [Index j; Key key] msg ∈ techs_issues [] techs)
  <-> exists t c', techs !! j = Some t /\ mkIssue c' [Index j; Key key] msg ∈ tech_issues [Index j] t.
Proof.
  unfold techs_issues. split.
  - intros [c Hin]. rewrite !elem_of_app in Hin. destruct Hin as [Hin|[Hin|Hin]].
    + destruct (_ <? _)%nat; [|by apply elem_of_nil in Hin].
      apply list_elem_of_singleton in Hin. discriminate Hin.
    + apply items_issues_elem in Hin as (k & t & Hk & Hin). simpl in Hin.
      assert (k = j) as ->.
      { apply tech_issues_path in Hin as [Hp|Hp]; simpl in Hp; by injection Hp. }
      by exists t, c.
    + destruct (existsb _ _); [by apply elem_of_nil in Hin|].
      destruct (someAbove50 _); [by apply elem_of_nil in Hin|].
      apply list_elem_of_singleton in Hin. discriminate Hin.
  - intros (t & c & Hj & Hin). exists c. rewrite !elem_of_app. right. left.
    apply items_issues_elem. by exists j, t.
Qed.

(** X4.  The validator files the issues of a row under the index of that
    row: the result of validating the list holds an issue with the message
    "O título é obrigatório" at the path [i].title exactly when the list has
    a row [i] whose title is empty, and an issue with the message of the
    bound 1 at the path [i].knowledge exactly when the list has a row [i]
    whose coerced knowledge is below 1.  This is about the issues the
    schema produces, not about the nested errors object the rows of the
    page read. *)
Theorem row_messages_at_row_index `{Host} (techs : list RawTech) (i : nat) :
  (reports (safeParse techs_schema techs) [Index i; Key "title"] "O título é obrigatório"
   <-> exists t, techs !! i = Some t /\ raw_title t = "")
  /\ (reports (safeParse techs_schema techs) [Index i; Key "knowledge"]
        "Number must be greater than or equal to 1"
      <-> exists t, techs !! i = Some t
                    /\ num_ltb (Number (raw_knowledge t)) (num_of_Z 1) = true).
Proof.
  rewrite safeParse_techs_issues, !reports_issues.
  rewrite !(techs_issues_row techs). split.
  - split.
    + intros (t & c & Hi & Hin). exists t. split; [done|].
      unfold tech_issues, min_issues in Hin. simpl in Hin.
      apply elem_of_app in Hin as [Hin|Hin].
      * destruct (raw_title t); [done|]. by apply elem_of_nil in Hin.
      * exfalso. unfold knowledge_issues, knowledge_range_issues in Hin.
        destruct (isNaN _);
          [apply list_elem_of_singleton in Hin; discriminate Hin|].
        apply elem_of_app in Hin as [Hin|Hin];
          (destruct (num_ltb _ _) || destruct (num_gtb _ _));
          try (by apply elem_of_nil in Hin);
          apply list_elem_of_singleton in Hin; discriminate Hin.
    + intros (t & Hi & Ht). exists t, too_small. split; [done|].
      unfold tech_issues, min_issues. rewrite Ht. simpl.
      apply list_elem_of_here.
  - split.
    + intros (t & c & Hi & Hin). exists t. split; [done|].
      unfold tech_issues, min_issues in Hin. simpl in Hin.
      apply elem_of_app in Hin as [Hin|Hin].
      * exfalso. destruct (_ <? _)%nat; [|by apply elem_of_nil in Hin].
        apply list_elem_of_singleton in Hin. discriminate Hin.
      * unfold knowledge_issues, knowledge_range_issues in Hin.
        destruct (isNaN _);
          [apply list_elem_of_singleton in Hin; discriminate Hin|].
        destruct (num_ltb _ _); [done|]. exfalso. cbn [app] in Hin.
        destruct (num_gtb _ _); [|by apply elem_of_nil in Hin].
        apply list_elem_of_singleton in Hin. vm_compute in Hin. discriminate Hin.
    + intros (t & Hi & Ht). exists t, too_small. split; [done|].
      unfold tech_issues. apply elem_of_app. right.
      unfold knowledge_issues, knowledge_range_issues.
      assert (isNaN (Number (raw_knowledge t)) = false) as ->
        by (by destruct (Number (raw_knowledge t))).
      rewrite Ht. apply elem_of_app. left. vm_compute. apply list_elem_of_here.
Qed.

(** ** What a successful validation guarantees *)

Lemma avatar_issues_none p f :
  avatar_issues p f = [] ->
  (File.size f <= AvatarApp.MAX_FILE_SIZE)%N
  /\ File.type f ∈ AvatarApp.ACCEPTED_IMAGE_TYPES.
Proof.
  unfold avatar_issues. intros [Hs Ht]%app_eq_nil.
  destruct (N.leb_spec (File.size f) AvatarApp.MAX_FILE_SIZE); [|discriminate].
  destruct (includes _ _) eqn:Hi; [|discriminate].
  split; [done|by apply includes_elem_of].
Qed.

Lemma email_issues_none `{Host} p email :
  email_issues p email = [] -> endsWith (toLowerCase email) "@hotmail.com" = true.
Proof.
  unfold email_issues. intros [_ [_ He]%app_eq_nil]%app_eq_nil.
  by destruct (endsWith _ _).
Qed.

Lemma min_issues_none p n msg data :
  min_issues p n msg data = [] -> (n <= String.length data)%nat.
Proof.
  unfold min_issues. destruct (Nat.ltb_spec (String.length data) n); [discriminate|done].
Qed.

Lemma techs_issues_none p techs :
  techs_issues p techs = [] ->
  (2 <= List.length techs)%nat
  /\ forallb tech_clean techs = true
  /\ someAbove50 techs = true.
Proof.
  unfold techs_issues. intros [Hmin [Hitems Hlearn]%app_eq_nil]%app_eq_nil.
  apply items_issues_nil in Hitems.
  rewrite (forallb_clean_not_aborted _ Hitems) in Hlearn.
  destruct (Nat.ltb_spec (List.length techs) 2); [discriminate|].
  by destruct (someAbove50 techs).
Qed.

Lemma tech_clean_spec t :
  tech_clean t = true ->
  title (techOf t) <> "" /\ inRange (knowledge (techOf t)) = true.
Proof.
  unfold tech_clean, techOf. simpl. intros [Ht Hr]%andb_true_iff.
  split; [|done]. intros Heq. by rewrite Heq in Ht.
Qed.

Lemma success_validated `{Host} v d :
  safeParse AvatarApp.createUserFormSchema v = inr (Success d) -> validated d.
Proof.
  intros Hok. destruct (success_normalized _ _ Hok) as (f & rest & _ & _ & Hi & ->).
  unfold form_issues in Hi.
  apply app_eq_nil in Hi as [Ha Hi]. apply app_eq_nil in Hi as [_ Hi].
  apply app_eq_nil in Hi as [He Hi]. apply app_eq_nil in Hi as [Hp Ht].
  apply avatar_issues_none in Ha as [Hsize Htype].
  apply email_issues_none in He. apply min_issues_none in Hp.
  apply techs_issues_none in Ht as (Hlen & Hclean & Hsome).
  unfold validated. simpl. repeat split.
  - by exists f.
  - exact He.
  - exact Hp.
  - by rewrite length_fmap.
  - apply Forall_fmap, Forall_forall. intros t Ht.
    rewrite forallb_forall in Hclean. apply tech_clean_spec, Hclean.
    by apply list_elem_of_In.
  - unfold someAbove50 in Hsome. apply existsb_exists in Hsome as (t & Ht & Hgt).
    apply Exists_exists. exists t. split; [by apply list_elem_of_In|done].
Qed.

(** X7.  When the validation succeeds, the object handed to [createUser]
    has: as avatar the first file of the list, at most 5MB and of an
    accepted type; the e-mail lower-cased and ending with "@hotmail.com";
    the password as typed, at least 6 long; the techs in the order of the
    rows, at least two, each with a non-empty title and a knowledge between
    1 and 100, one of them above 50. *)
Theorem success_guarantees `{Host} (v : AvatarApp.FieldValues)
    (d : AvatarApp.CreateUserFormData) :
  safeParse AvatarApp.createUserFormSchema v = inr (Success d) ->
  validated d
  /\ (exists f rest, AvatarApp.v_avatar v = Some (f :: rest) /\ AvatarApp.avatar d = Some f)
  /\ AvatarApp.email d = toLowerCase (AvatarApp.v_email v)
  /\ AvatarApp.password d = AvatarApp.v_password v
  /\ AvatarApp.techs d
     = (fun t => mkTech (raw_title t) (Number (raw_knowledge t))) <$> AvatarApp.v_techs v.
Proof.
  intros Hok. split; [by apply (success_validated v)|].
  destruct (success_normalized _ _ Hok) as (f & rest & Hv & _ & _ & ->).
  split; [by exists f, rest|]. done.
Qed.

Lemma success_guarantees_witness :
  @safeParse _ _ _ (@AvatarApp.createUserFormSchema asciiHost) sampleValues
  = inr (Success sampleData)
  /\ validated sampleData
  /\ AvatarApp.email sampleData = "ana@hotmail.com".
Proof.
  assert (Hok : @safeParse _ _ _ (@AvatarApp.createUserFormSchema asciiHost) sampleValues
                = inr (Success sampleData)) by (vm_compute; reflexivity).
  split; [exact Hok|].
  split; [exact (proj1 (@success_guarantees asciiHost _ _ Hok))|reflexivity].
Defined.

(** ** What the page uploads and shows *)

Lemma handleSubmit_cases `{Host} s :
  (exists d f,
      safeParse AvatarApp.createUserFormSchema (AvatarApp.fieldValues s) = inr (Success d)
      /\ AvatarApp.avatar d = Some f
      /\ AvatarApp.handleSubmit s
         = AvatarApp.mkState (AvatarApp.fieldValues s) true (Some d)
             (AvatarApp.stored s ++ [(File.name f, f)]) (AvatarApp.output s))
  \/ ((forall d, safeParse AvatarApp.createUserFormSchema (AvatarApp.fieldValues s)
                 <> inr (Success d))
      /\ exists flag,
           AvatarApp.handleSubmit s
           = AvatarApp.mkState (AvatarApp.fieldValues s) flag None
               (AvatarApp.stored s) (AvatarApp.output s)
           /\ (flag = false
               <-> exists issues,
                     safeParse AvatarApp.createUserFormSchema (AvatarApp.fieldValues s)
                     = inr (Failure issues))).
Proof.
  unfold AvatarApp.handleSubmit, zodResolver.
  destruct (safeParse _ _) as [e|[d|issues]] eqn:Hp.
  - right. split; [done|]. exists true. split; [done|].
    split; [done|]. by intros [? ?].
  - left. destruct (success_normalized _ _ Hp) as (f & rest & _ & _ & _ & ->).
    eexists _, f. by split.
  - right. split; [done|]. exists false. split; [done|].
    split; [|done]. intros _. by exists issues.
Qed.

Lemma validated_avatar_call d f :
  validated d -> AvatarApp.avatar d = Some f -> validated_call (File.name f, f).
Proof.
  intros ((f' & Hf & Hs & Ht) & _) Hav. rewrite Hav in Hf. injection Hf as <-.
  by split.
Qed.

Lemma step_page_invariant `{Host} s e :
  page_invariant s -> page_invariant (AvatarApp.step s e).
Proof.
  intros (Hst & Hup & Hout). destruct e as [v| | |rejected]; simpl.
  - done.
  - done.
  - destruct (AvatarApp.isSubmitting s); [done|].
    destruct (handleSubmit_cases s) as [(d & f & Hok & Hav & ->)|(_ & flag & -> & _)].
    + pose proof (success_validated _ _ Hok) as Hd.
      split; [|split]; simpl.
      * apply Forall_app. split; [done|]. apply Forall_singleton.
        by apply (validated_avatar_call d).
      * by intros ? [= <-].
      * done.
    + split; [|split]; simpl; [done| |done]. intros ? [=].
  - unfold AvatarApp.resume. destruct (AvatarApp.uploading s) as [d|] eqn:Hu.
    + destruct rejected; (split; [|split]); simpl; [done|by intros ? [=]|done|done|by intros ? [=]|].
      unfold AvatarApp.createUser_resumed.
      intros ? [= <-]. by apply Hup.
    + split; [done|split; [|done]]. intros d' Hd'.
      rewrite Hu in Hd'. discriminate Hd'.
Qed.

Lemma run_page_invariant `{Host} events :
  page_invariant (AvatarApp.run AvatarApp.initialState events).
Proof.
  induction events as [|e es IH] using rev_ind.
  - split; [constructor|]. split; intros ? [=].
  - rewrite run_app. by apply step_page_invariant.
Qed.

(** X8.  Whatever the user does, every call the page makes to the storage
    bucket stores a file under its own name, and that file is at most 5MB
    and of an accepted type: nothing that failed validation is uploaded. *)
Theorem uploads_are_validated `{Host} (events : list AvatarApp.Event)
    (key : string) (file : File.t) :
  (key, file) ∈ AvatarApp.stored (AvatarApp.run AvatarApp.initialState events) ->
  key = File.name file
  /\ (File.size file <= 5 * 1024 * 1024)%N
  /\ File.type file ∈ ["image/jpeg"; "image/jpg"; "image/png"; "image/webp"].
Proof.
  intros Hin. destruct (run_page_invariant events) as (Hst & _).
  rewrite Forall_forall in Hst. exact (Hst _ Hin).
Qed.

Lemma uploads_are_validated_witness :
  ("ana.png", sampleFile)
    ∈ AvatarApp.stored
        (@AvatarApp.run asciiHost AvatarApp.initialState
           [AvatarApp.Change sampleValues; AvatarApp.Submit])
  /\ "ana.png" = File.name sampleFile
  /\ (File.size sampleFile <= 5 * 1024 * 1024)%N.
Proof.
  assert (Hin : ("ana.png", sampleFile)
                  ∈ AvatarApp.stored
                      (@AvatarApp.run asciiHost AvatarApp.initialState
                         [AvatarApp.Change sampleValues; AvatarApp.Submit])).
  { vm_compute. apply list_elem_of_here. }
  destruct (@uploads_are_validated asciiHost _ _ _ Hin) as (Hk & Hs & _).
  exact (conj Hin (conj Hk Hs)).
Defined.



Lemma step_stored `{Host} s e :
  exists more,
    AvatarApp.stored (AvatarApp.step s e) = AvatarApp.stored s ++ more
    /\ (List.length more <= match e with AvatarApp.Submit => 1 | _ => 0 end)%nat.
Proof.
  destruct e as [v| | |rejected]; simpl.
  - exists []. by rewrite app_nil_r.
  - exists []. by rewrite app_nil_r.
  - destruct (AvatarApp.isSubmitting s).
    + exists []. rewrite app_nil_r. split; [done|simpl; lia].
    + destruct (handleSubmit_cases s) as [(d & f & _ & _ & ->)|(_ & flag & -> & _)]; simpl.
      * by eexists.
      * exists []. rewrite app_nil_r. split; [done|simpl; lia].
  - unfold AvatarApp.resume. exists []. rewrite app_nil_r.
    destruct (AvatarApp.uploading s); [by destruct rejected|done].
Qed.

Lemma submits_app es e :
  submits (es ++ [e])
  = (submits es + match e with AvatarApp.Submit => 1 | _ => 0 end)%nat.
Proof.
  induction es as [|x xs IH]; simpl.
  - destruct e; simpl; lia.
  - destruct x; simpl; rewrite IH; lia.
Qed.

Lemma run_stored_from `{Host} s events :
  exists more,
    AvatarApp.stored (AvatarApp.run s events) = AvatarApp.stored s ++ more
    /\ (List.length more <= submits events)%nat.
Proof.
  induction events as [|e es IH] using rev_ind.
  - exists []. by rewrite app_nil_r.
  - destruct IH as (more & Hm & Hl). rewrite run_app, submits_app.
    destruct (step_stored (AvatarApp.run s es) e) as (more' & -> & Hl').
    exists (more ++ more'). rewrite Hm, app_assoc, length_app.
    split; [done|lia].
Qed.

(** X14.  The list of calls made to the storage only grows: after any
    further events it is the earlier list followed by new calls, at most
    one per submit event among them.  Editing fields, adding a row and the
    settling of an upload never start an upload. *)
Theorem uploads_only_grow `{Host} (before after : list AvatarApp.Event) :
  exists more,
    AvatarApp.stored (AvatarApp.run AvatarApp.initialState (before ++ after))
    = AvatarApp.stored (AvatarApp.run AvatarApp.initialState before) ++ more
    /\ (List.length more <= submits after)%nat.
Proof.
  unfold AvatarApp.run at 1. rewrite fold_left_app.
  apply (run_stored_from (AvatarApp.run AvatarApp.initialState before) after).
Qed.

(** ** A row that was added and left as it is *)

Lemma untouched_row_fails `{Host} v d :
  newTech ∈ AvatarApp.v_techs v ->
  safeParse AvatarApp.createUserFormSchema v <> inr (Success d).
Proof.
  intros Hin Hok. destruct (success_normalized _ _ Hok) as (f & rest & _ & _ & Hi & _).
  unfold form_issues in Hi.
  apply app_eq_nil in Hi as [_ Hi]. apply app_eq_nil in Hi as [_ Hi].
  apply app_eq_nil in Hi as [_ Hi]. apply app_eq_nil in Hi as [_ Ht].
  apply techs_issues_none in Ht as (_ & Hclean & _).
  rewrite forallb_forall in Hclean.
  apply list_elem_of_In, Hclean in Hin. discriminate Hin.
Qed.

(** X6.  The row [addNewTech] appends (empty title, knowledge 0) is the last
    row of the list after the click.  While a row is still as appended the
    validation cannot succeed, so a submit from an idle form starts no
    upload, leaves nothing pending and leaves the field values and the
    output as they were.  The form is idle again after it exactly when the
    validation returned field errors; when the validator threw, the flag
    stays set. *)
Theorem untouched_new_row_blocks_submit `{Host} (s : AvatarApp.FormState) :
  newTech ∈ AvatarApp.v_techs (AvatarApp.fieldValues s) ->
  AvatarApp.isSubmitting s = false ->
  (forall d, safeParse AvatarApp.createUserFormSchema (AvatarApp.fieldValues s)
             <> inr (Success d))
  /\ (exists flag,
        AvatarApp.step s AvatarApp.Submit
        = AvatarApp.mkState (AvatarApp.fieldValues s) flag None
            (AvatarApp.stored s) (AvatarApp.output s)
        /\ (flag = false
            <-> exists issues,
                  safeParse AvatarApp.createUserFormSchema (AvatarApp.fieldValues s)
                  = inr (Failure issues)))
  /\ (forall s0 : AvatarApp.FormState,
        last (AvatarApp.v_techs (AvatarApp.fieldValues (AvatarApp.step s0 AvatarApp.AddNewTech)))
        = Some newTech
        /\ List.length
             (AvatarApp.v_techs (AvatarApp.fieldValues (AvatarApp.step s0 AvatarApp.AddNewTech)))
           = S (List.length (AvatarApp.v_techs (AvatarApp.fieldValues s0)))).
Proof.
  intros Hin Hidle. split; [|split].
  - intros d. by apply untouched_row_fails.
  - simpl. rewrite Hidle.
    destruct (handleSubmit_cases s) as [(d & f & Hok & _)|[_ Hflag]]; [|exact Hflag].
    by apply untouched_row_fails in Hok.
  - intros s0. simpl. unfold append. rewrite last_snoc, length_app. simpl.
    split; [done|lia].
Qed.

Lemma untouched_new_row_blocks_submit_witness :
  newTech ∈ AvatarApp.v_techs
              (AvatarApp.fieldValues
                 (@AvatarApp.run asciiHost AvatarApp.initialState
                    [AvatarApp.Change sampleValues; AvatarApp.AddNewTech]))
  /\ AvatarApp.isSubmitting
       (@AvatarApp.run asciiHost AvatarApp.initialState
          [AvatarApp.Change sampleValues; AvatarApp.AddNewTech]) = false
  /\ AvatarApp.stored
       (@AvatarApp.run asciiHost AvatarApp.initialState
          [AvatarApp.Change sampleValues; AvatarApp.AddNewTech; AvatarApp.Submit]) = [].
Proof.
  assert (Hin : newTech ∈ AvatarApp.v_techs
                  (AvatarApp.fieldValues
                     (@AvatarApp.run asciiHost AvatarApp.initialState
                        [AvatarApp.Change sampleValues; AvatarApp.AddNewTech]))).
  { vm_compute. do 2 apply list_elem_of_further. apply list_elem_of_here. }
  assert (Hidle : AvatarApp.isSubmitting
                    (@AvatarApp.run asciiHost AvatarApp.initialState
                       [AvatarApp.Change sampleValues; AvatarApp.AddNewTech]) = false)
    by reflexivity.
  split; [exact Hin|]. split; [exact Hidle|].
  destruct (@untouched_new_row_blocks_submit asciiHost _ Hin Hidle)
    as (_ & (flag & Hstep & _) & _).
  change (@AvatarApp.run asciiHost AvatarApp.initialState
            [AvatarApp.Change sampleValues; AvatarApp.AddNewTech; AvatarApp.Submit])
    with (@AvatarApp.step asciiHost
            (@AvatarApp.run asciiHost AvatarApp.initialState
               [AvatarApp.Change sampleValues; AvatarApp.AddNewTech]) AvatarApp.Submit).
  rewrite Hstep. reflexivity.
Defined.

(** ** When the validator throws *)

Lemma name_schema_unsafe `{Host} p name issues :
  name_safe name = false ->
  name_schema p name issues
  = inl (TypeError "Cannot read properties of undefined (reading 'toLocaleUpperCase')").
Proof.
  unfold name_safe. intros [Hl Hw]%orb_false_iff. apply negb_false_iff in Hw.
  by rewrite name_schema_run, name_transform_run, Hl, Hw.
Qed.

Lemma form_not_FileList_returns `{Host} name email password techs :
  name_safe name = true ->
  exists issues,
    safeParse AvatarApp.createUserFormSchema
      (AvatarApp.mkFieldValues None name email password techs)
    = inr (Failure (mkIssue custom [Key "avatar"] "Input not instance of FileList" :: issues)).
Proof.
  intros Hsafe. unfold safeParse, AvatarApp.createUserFormSchema, bind.
  cbn [app AvatarApp.v_avatar AvatarApp.v_name AvatarApp.v_email AvatarApp.v_password
       AvatarApp.v_techs].
  rewrite avatar_schema_not_FileList. cbn [app].
  destruct (name_schema_safe [Key "name"] name
              [mkIssue custom [Key "avatar"] "Input not instance of FileList"] Hsafe)
    as (rn & -> & _).
  destruct (email_schema_agrees [Key "email"] email
              ([mkIssue custom [Key "avatar"] "Input not instance of FileList"]
               ++ min_issues [Key "name"] 1 "O nome é obrigatório" name))
    as (re & -> & _).
  destruct (password_schema_run [Key "password"] password
              (([mkIssue custom [Key "avatar"] "Input not instance of FileList"]
                ++ min_issues [Key "name"] 1 "O nome é obrigatório" name)
               ++ email_issues [Key "email"] email)) as (rp & -> & _).
  destruct (techs_schema_agrees [Key "techs"] techs
              ((([mkIssue custom [Key "avatar"] "Input not instance of FileList"]
                 ++ min_issues [Key "name"] 1 "O nome é obrigatório" name)
                ++ email_issues [Key "email"] email)
               ++ min_issues [Key "password"] 6
                    "A senha precisa de no mínimo 6 caracteres" password))
    as (rt & -> & _).
  unfold ret. rewrite <- !(app_assoc (A:=ZodIssue)). cbn [app isAborted orb].
  by eexists.
Qed.

(** X15.  The validator throws in exactly two situations: the avatar is an
    empty file list (the TypeError of reading [size] of null), or the name
    is not empty and its trimmed form has an empty space-delimited word
    (the TypeError of reading [toLocaleUpperCase] of undefined).  On every
    other input it returns a result. *)
Theorem validator_throws_iff `{Host} (v : AvatarApp.FieldValues) :
  (AvatarApp.v_avatar v = Some []
   /\ safeParse AvatarApp.createUserFormSchema v
      = inl (TypeError "Cannot read properties of null (reading 'size')"))
  \/ (AvatarApp.v_avatar v <> Some []
      /\ AvatarApp.v_name v <> ""
      /\ "" ∈ split " " (trim (AvatarApp.v_name v))
      /\ safeParse AvatarApp.createUserFormSchema v
         = inl (TypeError "Cannot read properties of undefined (reading 'toLocaleUpperCase')"))
  \/ (AvatarApp.v_avatar v <> Some []
      /\ (AvatarApp.v_name v = "" \/ "" ∉ split " " (trim (AvatarApp.v_name v)))
      /\ exists r, safeParse AvatarApp.createUserFormSchema v = inr r).
Proof.
  destruct v as [[[|f rest]|] name email password techs];
    cbn [AvatarApp.v_avatar AvatarApp.v_name].
  - left. by split.
  - right. destruct (name_safe name) eqn:Hsafe.
    + right. split; [done|]. split.
      * unfold name_safe in Hsafe. apply orb_true_iff in Hsafe as [Hl|Hw].
        -- left. by destruct name.
        -- right. apply negb_true_iff in Hw. rewrite <- includes_elem_of.
           unfold includes. by rewrite Hw.
      * rewrite (form_returns _ _ _ _ _ _ Hsafe). by eexists.
    + left. split; [done|].
      pose proof Hsafe as Hs. unfold name_safe in Hs.
      apply orb_false_iff in Hs as [Hl Hw]. apply negb_false_iff in Hw.
      split; [by destruct name|]. split.
      * by apply includes_elem_of.
      * unfold safeParse, AvatarApp.createUserFormSchema, bind.
        cbn [app AvatarApp.v_avatar AvatarApp.v_name].
        destruct (avatar_schema_agrees [Key "avatar"] f rest []) as (ra & -> & _).
        by rewrite (name_schema_unsafe _ _ _ Hsafe).
  - right. destruct (name_safe name) eqn:Hsafe.
    + right. split; [done|]. split.
      * unfold name_safe in Hsafe. apply orb_true_iff in Hsafe as [Hl|Hw].
        -- left. by destruct name.
        -- right. apply negb_true_iff in Hw. rewrite <- includes_elem_of.
           unfold includes. by rewrite Hw.
      * destruct (form_not_FileList_returns name email password techs Hsafe) as [issues ->].
        by eexists.
    + left. split; [done|].
      pose proof Hsafe as Hs. unfold name_safe in Hs.
      apply orb_false_iff in Hs as [Hl Hw]. apply negb_false_iff in Hw.
      split; [by destruct name|]. split.
      * by apply includes_elem_of.
      * unfold safeParse, AvatarApp.createUserFormSchema, bind.
        cbn [app AvatarApp.v_avatar AvatarApp.v_name].
        rewrite avatar_schema_not_FileList.
        by rewrite (name_schema_unsafe _ _ _ Hsafe).
Qed.

(** ** Each field reports for itself *)

Lemma techs_issues_paths p techs :
  Forall (fun i => path i = p \/ below p i) (techs_issues p techs).
Proof.
  unfold techs_issues. repeat apply Forall_app_2.
  - destruct (_ <? _)%nat; repeat constructor.
  - eapply Forall_impl; [apply items_issues_below|]. by right.
  - destruct (existsb _ _); [constructor|].
    destruct (someAbove50 _); repeat constructor.
Qed.







(** ** The message shown under the e-mail *)

Lemma parseErrorSchema_absent issues (errs : gmap string FieldError) k :
  errs !! k = None ->
  Forall (fun j => pathString (path j) <> k) issues ->
  parseErrorSchema issues errs !! k = None.
Proof.
  revert errs. induction issues as [|i rest IH]; intros errs Hnone Hall; simpl; [done|].
  apply Forall_cons in Hall as [Hi Hrest].
  destruct (errs !! pathString (path i)); [by apply IH|].
  apply IH; [|done]. by rewrite lookup_insert_ne.
Qed.

Lemma techs_issues_not_email techs :
  Forall (fun j => pathString (path j) <> "email") (techs_issues [Key "techs"] techs).
Proof.
  eapply Forall_impl; [apply techs_issues_paths|].
  intros j [->|(seg & rest & ->)]; [discriminate|].
  unfold pathString. simpl. discriminate.
Qed.

Lemma resolver_returns `{Host} f rest name email password techs :
  name_safe name = true ->
  exists r,
    zodResolver AvatarApp.createUserFormSchema
      (AvatarApp.mkFieldValues (Some (f :: rest)) name email password techs) = inr r
    /\ errors r = parseErrorSchema (form_issues f name email password techs) ∅.
Proof.
  intros Hsafe. unfold zodResolver. rewrite (form_returns _ _ _ _ _ _ Hsafe).
  destruct (form_issues f name email password techs) eqn:Hi; by eexists.
Qed.

(** X10.  When a file is chosen and the name has no empty word, the message
    shown under the e-mail is the one of the first rule the e-mail breaks:
    the required message for the empty e-mail, otherwise the format message
    when the e-mail is not well formed, otherwise the suffix message when
    its lower-cased form lacks "@hotmail.com", and no message otherwise;
    the other fields do not change it. *)
Theorem email_message_shown `{Host} (f : File.t) (rest : FileList)
    (name email password : string) (techs : list RawTech) :
  name_safe name = true ->
  exists r,
    zodResolver AvatarApp.createUserFormSchema
      (AvatarApp.mkFieldValues (Some (f :: rest)) name email password techs) = inr r
    /\ errors r !! "email"
       = if String.eqb email ""
         then Some (mkFieldError "O email é obrigatório" too_small)
         else if negb (emailRegex_test email)
              then Some (mkFieldError "Formato de email inválido" invalid_string)
              else if negb (endsWith (toLowerCase email) "@hotmail.com")
                   then Some (mkFieldError "O email precisa ser do hotmail" custom)
                   else None.
Proof.
  intros Hsafe.
  destruct (resolver_returns f rest name email password techs Hsafe) as (r & Hr & He).
  exists r. split; [exact Hr|]. rewrite He. unfold form_issues.
  rewrite !(app_assoc (A:=ZodIssue)).
  set (before := avatar_issues _ f ++ min_issues _ 1 _ name).
  assert (Hbefore : Forall (fun j => pathString (path j) <> "email") before).
  { unfold before. apply Forall_app_2.
    - eapply Forall_impl; [apply avatar_issues_path|]. intros j ->. discriminate.
    - eapply Forall_impl; [apply min_issues_path|]. intros j ->. discriminate. }
  assert (Hafter : Forall (fun j => pathString (path j) <> "email")
                     (min_issues [Key "password"] 6
                        "A senha precisa de no mínimo 6 caracteres" password
                      ++ techs_issues [Key "techs"] techs)).
  { apply Forall_app_2; [|apply techs_issues_not_email].
    eapply Forall_impl; [apply min_issues_path|]. intros j ->. discriminate. }
  rewrite <- !(app_assoc (A:=ZodIssue)).
  unfold email_issues, min_issues at 1.
  destruct email as [|c e'] eqn:Hemail.
  - cbn [String.eqb String.length Nat.ltb Nat.leb app].
    apply (parseErrorSchema_skip before
             (mkIssue too_small [Key "email"] "O email é obrigatório") _ ∅);
      [apply lookup_empty|exact Hbefore].
  - rewrite <- Hemail in *.
    assert (String.eqb email "" = false) as -> by (rewrite Hemail; reflexivity).
    assert ((String.length email <? 1)%nat = false) as -> by (rewrite Hemail; reflexivity).
    cbn [app].
    destruct (emailRegex_test email); cbn [negb app].
    + destruct (endsWith (toLowerCase email) "@hotmail.com"); cbn [negb app].
      * apply parseErrorSchema_absent; [apply lookup_empty|].
        by apply Forall_app_2.
      * apply (parseErrorSchema_skip before
                 (mkIssue custom [Key "email"] "O email precisa ser do hotmail") _ ∅);
          [apply lookup_empty|exact Hbefore].
    + apply (parseErrorSchema_skip before
               (mkIssue invalid_string [Key "email"] "Formato de email inválido") _ ∅);
        [apply lookup_empty|exact Hbefore].
Qed.

Lemma email_message_shown_witness :
  name_safe "Ana" = true
  /\ exists r,
       @zodResolver _ _ _ (@AvatarApp.createUserFormSchema asciiHost)
         (AvatarApp.mkFieldValues (Some [sampleFile]) "Ana" "" "123456" []) = inr r
       /\ errors r !! "email" = Some (mkFieldError "O email é obrigatório" too_small).
Proof.
  assert (Hsafe : name_safe "Ana" = true) by reflexivity.
  split; [exact Hsafe|].
  exact (@email_message_shown asciiHost sampleFile [] "Ana" "" "123456" [] Hsafe).
Defined.

(** ** The basic form and the form with the avatar *)

Lemma basic_form_returns `{Host} name email password techs :
  name_safe name = true ->
  safeParse App.createUserFormSchema (App.mkFieldValues name email password techs)
  = inr (match basic_issues name email password techs with
         | [] => Success (App.mkData (normalize_name_spec name) (toLowerCase email)
                            password (techOf <$> techs))
         | _ => Failure (basic_issues name email password techs)
         end).
Proof.
  intros Hsafe. unfold safeParse, App.createUserFormSchema, bind, basic_issues.
  cbn [app App.v_name App.v_email App.v_password App.v_techs].
  destruct (name_schema_safe [Key "name"] name [] Hsafe) as (rn & -> & Hn).
  cbn [app].
  destruct (email_schema_agrees [Key "email"] email
              (min_issues [Key "name"] 1 "O nome é obrigatório" name))
    as (re & -> & He).
  destruct (password_schema_run [Key "password"] password
              (min_issues [Key "name"] 1 "O nome é obrigatório" name
               ++ email_issues [Key "email"] email)) as (rp & -> & Hp).
  destruct (techs_schema_agrees [Key "techs"] techs
              ((min_issues [Key "name"] 1 "O nome é obrigatório" name
                ++ email_issues [Key "email"] email)
               ++ min_issues [Key "password"] 6
                    "A senha precisa de no mínimo 6 caracteres" password))
    as (rt & -> & Ht).
  unfold ret. rewrite <- !(app_assoc (A:=ZodIssue)).
  destruct (agrees_cases _ _ _ Hn) as [[Hn1 Hn2]|[Hn1 Hn2]];
    [|destruct (min_issues _ 1 _ name); [done|]; not_valid rn].
  destruct (agrees_cases _ _ _ He) as [[He1 He2]|[He1 He2]];
    [|rewrite Hn1, Hn2; cbn [app];
      destruct (email_issues _ email) as [|i l]; [done|]; not_valid re].
  destruct (agrees_cases _ _ _ Hp) as [[Hp1 Hp2]|[Hp1 Hp2]];
    [|rewrite Hn1, Hn2, He1, He2; cbn [app];
      destruct (min_issues _ 6 _ password); [done|]; not_valid rp].
  rewrite Hn1, Hn2, He1, He2, Hp1, Hp2; cbn [app].
  destruct (agrees_cases _ _ _ Ht) as [[Ht1 Ht2]|[Ht1 Ht2]].
  - by rewrite Ht1, Ht2.
  - destruct (techs_issues _ techs); [done|]. not_valid rt.
Qed.

Lemma avatar_issues_accepted p f :
  (File.size f <= AvatarApp.MAX_FILE_SIZE)%N ->
  File.type f ∈ AvatarApp.ACCEPTED_IMAGE_TYPES ->
  avatar_issues p f = [].
Proof.
  intros Hs Ht. unfold avatar_issues.
  apply N.leb_le in Hs. apply includes_elem_of in Ht. by rewrite Hs, Ht.
Qed.

(** X12.  The form with the avatar extends the basic form without changing
    it: with an acceptable file chosen, the two validators agree on every
    name, e-mail, password and list of techs: they throw the same error,
    or fail with the same issues, or succeed with the same normalized
    name, e-mail, password and techs. *)
Theorem avatar_form_extends_basic_form `{Host} (f : File.t) (rest : FileList)
    (name email password : string) (techs : list RawTech) :
  (File.size f <= AvatarApp.MAX_FILE_SIZE)%N ->
  File.type f ∈ AvatarApp.ACCEPTED_IMAGE_TYPES ->
  forgetAvatar
    (safeParse AvatarApp.createUserFormSchema
       (AvatarApp.mkFieldValues (Some (f :: rest)) name email password techs))
  = safeParse App.createUserFormSchema (App.mkFieldValues name email password techs).
Proof.
  intros Hs Ht. destruct (name_safe name) eqn:Hsafe.
  - rewrite (form_returns _ _ _ _ _ _ Hsafe), (basic_form_returns _ _ _ _ Hsafe).
    unfold form_issues. rewrite (avatar_issues_accepted _ _ Hs Ht). cbn [app].
    fold (basic_issues name email password techs).
    by destruct (basic_issues name email password techs).
  - unfold safeParse, AvatarApp.createUserFormSchema, App.createUserFormSchema, bind.
    cbn [app AvatarApp.v_avatar AvatarApp.v_name App.v_name].
    destruct (avatar_schema_agrees [Key "avatar"] f rest []) as (ra & -> & _).
    by rewrite !(name_schema_unsafe _ _ _ Hsafe).
Qed.

Lemma avatar_form_extends_basic_form_witness :
  (File.size sampleFile <= AvatarApp.MAX_FILE_SIZE)%N
  /\ File.type sampleFile ∈ AvatarApp.ACCEPTED_IMAGE_TYPES
  /\ forgetAvatar
       (@safeParse _ _ _ (@AvatarApp.createUserFormSchema asciiHost)
          (AvatarApp.mkFieldValues (Some [sampleFile]) "ana" "Ana@Hotmail.com" "12345" []))
     = @safeParse _ _ _ (@App.createUserFormSchema asciiHost)
         (App.mkFieldValues "ana" "Ana@Hotmail.com" "12345" []).
Proof.
  assert (Hs : (File.size sampleFile <= AvatarApp.MAX_FILE_SIZE)%N) by (vm_compute; discriminate).
  assert (Ht : File.type sampleFile ∈ AvatarApp.ACCEPTED_IMAGE_TYPES).
  { vm_compute. do 2 apply list_elem_of_further. apply list_elem_of_here. }
  exact (conj Hs (conj Ht (@avatar_form_extends_basic_form asciiHost sampleFile []
                             "ana" "Ana@Hotmail.com" "12345" [] Hs Ht))).
Defined.

(** ** Names that are already in normal form *)

Lemma split_nonempty sep s : split sep s <> [].
Proof.
  destruct s as [|c r]; simpl; [done|].
  destruct (Ascii.eqb c sep); [done|]. by destruct (split sep r).
Qed.

Lemma join_split sep s : join (String sep EmptyString) (split sep s) = s.
Proof.
  induction s as [|c r IH]; simpl; [done|].
  destruct (Ascii.eqb_spec c sep) as [->|Hne].
  - destruct (split sep r) as [|w ws] eqn:Hsp; [by apply split_nonempty in Hsp|].
    simpl. by rewrite <- IH.
  - destruct (split sep r) as [|w ws] eqn:Hsp; [by apply split_nonempty in Hsp|].
    rewrite <- IH. by destruct ws.
Qed.

(** X13.  A name whose words (after trimming) are all non-empty and already
    start with a letter that upper-casing leaves alone is returned as its
    trimmed form, character for character: the transform changes first
    letters and surrounding white space, nothing else. *)
Theorem normal_name_unchanged `{Host} (name : string) :
  name <> "" ->
  Forall (fun w => exists c r, w = String c r
                               /\ toLocaleUpperCase (String c EmptyString)
                                  = String c EmptyString)
    (split " " (trim name)) ->
  safeParse name_schema name = inr (Success (trim name)).
Proof.
  intros Hne Hall. unfold safeParse. rewrite name_schema_run, name_transform_run.
  assert ((String.length name <? 1)%nat = false) as -> by (by destruct name).
  assert (existsb (String.eqb "") (split " " (trim name)) = false) as ->.
  { apply existsb_false_Forall. eapply Forall_impl; [exact Hall|].
    intros w (c & r & -> & _). done. }
  unfold normalize_name_spec.
  replace (capitalize_spec <$> split " " (trim name)) with (split " " (trim name)).
  - by rewrite join_split.
  - symmetry. rewrite <- (list_fmap_id (split " " (trim name))) at 2.
    apply Forall_fmap_ext_1. eapply Forall_impl; [exact Hall|].
    intros w (c & r & -> & Hc). unfold capitalize_spec. simpl. by rewrite Hc.
Qed.

Lemma normal_name_unchanged_witness :
  " Ana Maria " <> ""
  /\ @safeParse _ _ _ (@name_schema asciiHost) " Ana Maria " = inr (Success "Ana Maria").
Proof.
  assert (Hne : " Ana Maria " <> "") by discriminate.
  split; [exact Hne|].
  apply (@normal_name_unchanged asciiHost " Ana Maria " Hne).
  vm_compute. repeat constructor; eexists _, _; split; reflexivity.
Defined.

(** ** The output comes after the upload *)

Lemma sent_step `{Host} s e d : sent s d -> sent (AvatarApp.step s e) d.
Proof.
  intros (f & Hf & Hin). exists f. split; [done|].
  destruct (step_stored s e) as (more & -> & _). apply elem_of_app. by left.
Qed.

Lemma step_upload_first `{Host} s e :
  upload_first s -> upload_first (AvatarApp.step s e).
Proof.
  intros [Hup Hout].
  assert (Hkeep : forall d, sent s d -> sent (AvatarApp.step s e) d)
    by (intros d; apply sent_step).
  destruct e as [v| | |rejected]; simpl in *.
  - by split.
  - by split.
  - destruct (AvatarApp.isSubmitting s); [by split|].
    destruct (handleSubmit_cases s) as [(d & f & _ & Hav & Heq)|(_ & flag & Heq & _)];
      rewrite Heq in *; simpl.
    + split.
      * intros ? [= <-]. exists f. split; [done|].
        simpl. apply elem_of_app. right. apply list_elem_of_here.
      * intros d' Hd'. apply Hkeep. by apply Hout.
    + split; [intros ? [=]|]. intros d' Hd'. apply Hkeep. by apply Hout.
  - unfold AvatarApp.resume in *. destruct (AvatarApp.uploading s) as [d|] eqn:Hu.
    + destruct rejected; simpl; (split; [intros ? [=]|]).
      * intros d' Hd'. destruct (Hout _ Hd') as (f & Hf & Hin). by exists f.
      * unfold AvatarApp.createUser_resumed. intros ? [= <-].
        destruct (Hup d eq_refl) as (f & Hf & Hin). by exists f.
    + split; [|done]. intros d' Hd'. rewrite Hu in Hd'. discriminate Hd'.
Qed.

(** X16.  The page shows an output only for data whose avatar it has
    already handed to the storage: whenever the output holds an object, the
    call storing that object's avatar under the file's name is among the
    calls made so far. *)
Theorem output_after_upload `{Host} (events : list AvatarApp.Event)
    (d : AvatarApp.CreateUserFormData) :
  AvatarApp.output (AvatarApp.run AvatarApp.initialState events) = Some d ->
  exists f,
    AvatarApp.avatar d = Some f
    /\ (File.name f, f) ∈ AvatarApp.stored (AvatarApp.run AvatarApp.initialState events).
Proof.
  assert (Hinv : upload_first (AvatarApp.run AvatarApp.initialState events)).
  { induction events as [|e es IH] using rev_ind.
    - split; intros ? [=].
    - rewrite run_app. by apply step_upload_first. }
  intros Hout. by apply Hinv.
Qed.

Lemma output_after_upload_witness :
  AvatarApp.output
    (@AvatarApp.run asciiHost AvatarApp.initialState
       [AvatarApp.Change sampleValues; AvatarApp.Submit; AvatarApp.UploadSettled false])
  = Some sampleData
  /\ exists f,
       AvatarApp.avatar sampleData = Some f
       /\ (File.name f, f)
            ∈ AvatarApp.stored
                (@AvatarApp.run asciiHost AvatarApp.initialState
                   [AvatarApp.Change sampleValues; AvatarApp.Submit;
                    AvatarApp.UploadSettled false]).
Proof.
  assert (Hout : AvatarApp.output
                   (@AvatarApp.run asciiHost AvatarApp.initialState
                      [AvatarApp.Change sampleValues; AvatarApp.Submit;
                       AvatarApp.UploadSettled false]) = Some sampleData)
    by (vm_compute; reflexivity).
  exact (conj Hout (@output_after_upload asciiHost _ _ Hout)).
Defined.
